(** * InvoiceList.tsx: the invoice list of the car A/C service billing app

    A shallow embedding of [src/components/InvoiceList.tsx]: the filter that
    derives the displayed view, the jsPDF export, the share handler and the
    delete handler, followed by the properties of the specification.

    Conventions.
    - A JavaScript string is a [string] of bytes: the UTF-8 encoding of
      its text.  White space is the whole set of the language (the
      characters that [trim] strips and [\s] matches), each character
      recognised by its encoding; the digits of [\d] are the ten ASCII
      digits.  [toLowerCase] follows the case tables of Unicode, which are
      no part of the source: it is taken from the runtime.
    - What the browser, date-fns and the number formatting of the language
      decide is collected in the class [JsRuntime]; every definition and
      theorem is stated for an arbitrary runtime.
    - React state and [localStorage] form the [World]; a handler is a
      function from the world to an [Outcome]: the calls it made to its
      collaborators (the trace), the world it leaves and how it completed. *)

From Stdlib Require Import List String Ascii ZArith Bool Lia Arith.
From Stdlib Require Import Numbers.DecimalString.
From Stdlib Require Import Sorting.Sorted.
Import ListNotations.

Local Open Scope string_scope.
Local Open Scope list_scope.

(* ================================================================== *)
(** ** String built-ins                                                *)
(* ================================================================== *)

Module JsString.

(** The text whose UTF-8 encoding is the given bytes. *)
Definition utf8 (bytes : list nat) : string :=
  string_of_list_ascii (map ascii_of_nat bytes).

(** The white-space characters of the language, each as its UTF-8
    encoding: those that [String.prototype.trim] strips and the class [\s]
    matches.  They are TAB, LF, VT, FF, CR, SPACE, U+00A0, U+1680, U+2000
    to U+200A, U+2028, U+2029, U+202F, U+205F, U+3000 and U+FEFF. *)
Definition whiteSpaceChars : list string :=
  map utf8
    [ [9]; [10]; [11]; [12]; [13]; [32];
      [194; 160];
      [225; 154; 128];
      [226; 128; 128]; [226; 128; 129]; [226; 128; 130]; [226; 128; 131];
      [226; 128; 132]; [226; 128; 133]; [226; 128; 134]; [226; 128; 135];
      [226; 128; 136]; [226; 128; 137]; [226; 128; 138];
      [226; 128; 168]; [226; 128; 169];
      [226; 128; 175];
      [226; 129; 159];
      [227; 128; 128];
      [239; 187; 191] ].

(** What follows [w] in [s], when [s] starts with [w]. *)
Fixpoint stripPrefix (w s : string) : option string :=
  match w with
  | EmptyString => Some s
  | String a w' =>
      match s with
      | EmptyString => None
      | String b s' => if Ascii.eqb a b then stripPrefix w' s' else None
      end
  end.

(** What follows the first of the texts [ws] that [s] starts with. *)
Fixpoint stripAny (ws : list string) (s : string) : option string :=
  match ws with
  | [] => None
  | w :: others =>
      match stripPrefix w s with
      | Some rest => Some rest
      | None => stripAny others s
      end
  end.

(** [\s] matched at the start of [s]: what follows the white-space
    character that [s] starts with, [None] when it starts with none.  No
    white-space character starts with a continuation byte, so in
    well-formed UTF-8 a match begins at a character boundary only. *)
Definition whiteSpaceAt (s : string) : option string :=
  stripAny whiteSpaceChars s.

(** The class [\d]: the ten ASCII digits. *)
Definition isDigit (c : ascii) : bool :=
  let n := nat_of_ascii c in
  (48 <=? n)%nat && (n <=? 57)%nat.

Definition isUpper (c : ascii) : bool :=
  let n := nat_of_ascii c in
  (65 <=? n)%nat && (n <=? 90)%nat.

(** The lower case of the ASCII letters: A to Z go to a to z, every other
    byte stays.  On ASCII text this is what [toLowerCase] of the language
    does. *)
Definition lowerAsciiLetter (c : ascii) : ascii :=
  if isUpper c then ascii_of_nat (nat_of_ascii c + 32) else c.

Fixpoint lowerAsciiText (s : string) : string :=
  match s with
  | EmptyString => EmptyString
  | String c rest => String (lowerAsciiLetter c) (lowerAsciiText rest)
  end.


(** [s.trimStart()]: white-space characters are stripped from the start
    for as long as there is one.  Each step strips at least one byte, so
    the length of the text is fuel enough. *)
Fixpoint trimStartFrom (fuel : nat) (s : string) : string :=
  match fuel with
  | O => s
  | S fuel' =>
      match whiteSpaceAt s with
      | Some rest => trimStartFrom fuel' rest
      | None => s
      end
  end.

Definition trimStart (s : string) : string := trimStartFrom (String.length s) s.

(** [s] holds white-space characters only: nothing is left when they are
    stripped from the start. *)
Definition allWhiteSpace (s : string) : bool :=
  match trimStart s with
  | EmptyString => true
  | String _ _ => false
  end.

(** [s.trimEnd()]: the text up to where only white space follows. *)
Fixpoint trimEnd (s : string) : string :=
  match s with
  | EmptyString => EmptyString
  | String c rest =>
      if allWhiteSpace s then EmptyString else String c (trimEnd rest)
  end.

(** [s.trim()] *)
Definition trim (s : string) : string := trimEnd (trimStart s).

(** [s === ""] *)
Definition isEmpty (s : string) : bool :=
  match s with
  | EmptyString => true
  | String _ _ => false
  end.

(** [hay.includes(needle)]: [needle] occurs at some position of [hay]. *)
Fixpoint includes (hay needle : string) : bool :=
  prefix needle hay ||
  match hay with
  | EmptyString => false
  | String _ rest => includes rest needle
  end.

(** [s.replace(/[^\d]/g, '')]: every character that is not a digit is
    deleted. *)
Fixpoint replaceNonDigits (s : string) : string :=
  match s with
  | EmptyString => EmptyString
  | String c rest =>
      if isDigit c then String c (replaceNonDigits rest)
      else replaceNonDigits rest
  end.

(** [s.replace(/\s+/g, '_')]: every maximal run of white-space characters
    becomes one underscore.  [inRun] tells that the character before was
    white space, so that the run has its underscore already.  The length
    of the text is fuel enough. *)
Fixpoint replaceSpaceRunsFrom (fuel : nat) (inRun : bool) (s : string)
  : string :=
  match fuel with
  | O => EmptyString
  | S fuel' =>
      match s with
      | EmptyString => EmptyString
      | String c rest =>
          match whiteSpaceAt s with
          | Some afterSpace =>
              if inRun then replaceSpaceRunsFrom fuel' true afterSpace
              else String "_" (replaceSpaceRunsFrom fuel' true afterSpace)
          | None => String c (replaceSpaceRunsFrom fuel' false rest)
          end
      end
  end.

Definition replaceSpaceRuns (inRun : bool) (s : string) : string :=
  replaceSpaceRunsFrom (String.length s) inRun s.

Definition hexDigit (n : nat) : ascii :=
  if (n <? 10)%nat then ascii_of_nat (48 + n) else ascii_of_nat (55 + n).

(** The characters [encodeURIComponent] leaves as they are: letters,
    digits and [- _ . ! ~ * ' ( )]. *)
Definition isUriUnreserved (c : ascii) : bool :=
  let n := nat_of_ascii c in
  isDigit c || isUpper c || ((97 <=? n)%nat && (n <=? 122)%nat) ||
  existsb (Nat.eqb n) [45; 95; 46; 33; 126; 42; 39; 40; 41].

(** [encodeURIComponent(s)]: every other byte of the UTF-8 encoding is
    written as a percent sign and two upper-case hexadecimal digits. *)
Fixpoint encodeURIComponent (s : string) : string :=
  match s with
  | EmptyString => EmptyString
  | String c rest =>
      if isUriUnreserved c then String c (encodeURIComponent rest)
      else
        let n := nat_of_ascii c in
        String "%" (String (hexDigit (n / 16)) (String (hexDigit (n mod 16))
          (encodeURIComponent rest)))
  end.

(** The decimal numeral of an array index, as a template literal prints
    it. *)
Definition ofIndex (n : nat) : string :=
  NilEmpty.string_of_uint (Nat.to_uint n).

(** No character of [s] is a digit. *)
Fixpoint noDigit (s : string) : bool :=
  match s with
  | EmptyString => true
  | String c rest => negb (isDigit c) && noDigit rest
  end.

End JsString.

Import JsString.

(* ================================================================== *)
(** ** The runtime: dates, numbers, errors                             *)
(* ================================================================== *)

(** A [Date] object: its time value is a number of milliseconds since the
    epoch, or NaN (an "Invalid Date"). *)
Inductive Date : Type :=
| ValidDate (time : Z)
| InvalidDate.

(** What the source takes from the language and from date-fns without
    defining it.
    - [number] and [Number_toString]: the numbers of the language and the
      text a template literal prints for one;
    - [Date_new s] is [new Date(s)], whose parsing depends on the engine;
    - [parseISO s] is date-fns' parser, which answers an Invalid Date where
      [s] is no ISO 8601 date;
    - [formatPPP t] is [format(d, 'PPP')] for a date [d] of time value
      [t];
    - [toLowerCase s] is [s.toLowerCase()], which follows the case
      mappings of Unicode. *)
Class JsRuntime : Type := {
  number : Type;
  Number_toString : number -> string;
  Date_new : string -> Date;
  parseISO : string -> Date;
  formatPPP : Z -> string;
  toLowerCase : string -> string
}.

Record JsError : Type := mkError { name : string; message : string }.

(** How a piece of code ends: with a value, or with a thrown error. *)
Inductive Completion (A : Type) : Type :=
| Normal (value : A)
| Throw (error : JsError).
Arguments Normal {A} value.
Arguments Throw {A} error.

(** [isNaN(d.getTime())] *)
Definition isNaN_getTime (d : Date) : bool :=
  match d with
  | ValidDate _ => false
  | InvalidDate => true
  end.

(** date-fns [isAfter], [isBefore], [isEqual]: comparisons of the two time
    values; a comparison with NaN is false. *)
Definition isAfter (d dateToCompare : Date) : bool :=
  match d, dateToCompare with
  | ValidDate t, ValidDate c => (c <? t)%Z
  | _, _ => false
  end.

Definition isBefore (d dateToCompare : Date) : bool :=
  match d, dateToCompare with
  | ValidDate t, ValidDate c => (t <? c)%Z
  | _, _ => false
  end.

Definition isEqual (dateLeft dateRight : Date) : bool :=
  match dateLeft, dateRight with
  | ValidDate l, ValidDate r => (l =? r)%Z
  | _, _ => false
  end.

(** The jsPDF document: the drawing calls made on it, in order. *)
Inductive DocOp : Type :=
| SetFontSize (size : Z)
| Text (text : string) (x y : Z).

Definition Doc : Type := list DocOp.

(** The texts drawn on a document, in drawing order. *)
Fixpoint docLines (doc : Doc) : list string :=
  match doc with
  | [] => []
  | SetFontSize _ :: rest => docLines rest
  | Text t _ _ :: rest => t :: docLines rest
  end.

Record File : Type := mkFile {
  fileBits : Doc;
  fileName : string;
  fileType : string
}.

Record ShareData : Type := mkShareData {
  shareTitle : string;
  shareText : string;
  shareFiles : list File
}.

(** [navigator.share]: absent on platforms without the Web Share API;
    where present, the promise it returns is fulfilled or rejected. *)
Record Navigator : Type := mkNavigator {
  share : option (ShareData -> Completion unit)
}.

Definition newline : string := String (ascii_of_nat 10) EmptyString.

Section Model.

Context {RT : JsRuntime}.

(* ================================================================ *)
(** ** Data model (the two interfaces of the source)                 *)
(* ================================================================ *)

Record ServiceItem : Type := mkServiceItem {
  description : string;
  amount : number
}.

Record Invoice : Type := mkInvoice {
  id : string;
  date : string;
  customerName : string;
  customerPhone : string;
  vehicleModel : string;
  vehicleNumber : string;
  services : list ServiceItem;
  total : number
}.

(** The state [dateRange]: each bound is a [Date] or [undefined]. *)
Record DateRange : Type := mkDateRange {
  from : option Date;
  to : option Date
}.

(** The five pieces of React state of the component, and the entry
    ['invoices'] of [localStorage].  The entry holds the JSON text of an
    array of invoices; it is represented by that array, [None] when the
    key is absent. *)
Record World : Type := mkWorld {
  invoices : list Invoice;
  filteredInvoices : list Invoice;
  invoiceToDelete : option string;
  searchVehicle : string;
  dateRange : DateRange;
  localStorage_invoices : option (list Invoice)
}.

(** The calls a handler makes to its collaborators. *)
Inductive Event : Type :=
| JsPDF_new
| JsPDF_call (op : DocOp)
| JsPDF_output_blob (doc : Doc)
| JsPDF_save (doc : Doc) (filename : string)
| Navigator_share (data : ShareData)
| Window_open (url target : string)
| Toast_success (msg : string)
| Toast_error (msg : string)
| Console_error (label : string) (error : JsError)
| LocalStorage_setItem (key : string) (value : list Invoice)
| Navigate (path : string).

(* ================================================================ *)
(** ** Handlers as state, trace and exception passing                *)
(* ================================================================ *)

Record Outcome (A : Type) : Type := mkOutcome {
  trace : list Event;
  world : World;
  completion : Completion A
}.
Arguments mkOutcome {A} trace world completion.
Arguments trace {A} o.
Arguments world {A} o.
Arguments completion {A} o.

Definition M (A : Type) : Type := World -> Outcome A.

Definition ret {A : Type} (a : A) : M A :=
  fun w => mkOutcome [] w (Normal a).

Definition throw {A : Type} (e : JsError) : M A :=
  fun w => mkOutcome [] w (Throw e).

Definition bind {A B : Type} (m : M A) (k : A -> M B) : M B :=
  fun w =>
    match m w with
    | mkOutcome tr w1 (Normal a) =>
        match k a w1 with
        | mkOutcome tr' w2 c => mkOutcome (tr ++ tr') w2 c
        end
    | mkOutcome tr w1 (Throw e) => mkOutcome tr w1 (Throw e)
    end.

(** [try { body } catch (error) { handler }] *)
Definition try_catch {A : Type} (body : M A) (handler : JsError -> M A)
  : M A :=
  fun w =>
    match body w with
    | mkOutcome tr w1 (Normal a) => mkOutcome tr w1 (Normal a)
    | mkOutcome tr w1 (Throw e) =>
        match handler e w1 with
        | mkOutcome tr' w2 c => mkOutcome (tr ++ tr') w2 c
        end
    end.

Definition emit (e : Event) : M unit :=
  fun w => mkOutcome [e] w (Normal tt).

(** The values of the state variables that the closure of a handler
    sees: those of the render that created it. *)
Definition getWorld : M World :=
  fun w => mkOutcome [] w (Normal w).

Definition modify (f : World -> World) : M unit :=
  fun w => mkOutcome [] (f w) (Normal tt).

End Model.

Arguments mkOutcome {RT A} trace world completion.
Arguments trace {RT A} o.
Arguments world {RT A} o.
Arguments completion {RT A} o.

Declare Scope js_scope.
Delimit Scope js_scope with js.
Notation "x <- m ;; k" := (bind m (fun x => k))
  (at level 61, m at next level, right associativity) : js_scope.
Notation "m ;; k" := (bind m (fun _ => k))
  (at level 61, right associativity) : js_scope.
Local Open Scope js_scope.

Section Component.

Context {RT : JsRuntime}.

(* ================================================================ *)
(** ** State setters and collaborators                               *)
(* ================================================================ *)

Definition setInvoices (v : list Invoice) : M unit :=
  modify (fun w => mkWorld v (filteredInvoices w) (invoiceToDelete w)
                     (searchVehicle w) (dateRange w)
                     (localStorage_invoices w)).

Definition setFilteredInvoices (v : list Invoice) : M unit :=
  modify (fun w => mkWorld (invoices w) v (invoiceToDelete w)
                     (searchVehicle w) (dateRange w)
                     (localStorage_invoices w)).

Definition setInvoiceToDelete (v : option string) : M unit :=
  modify (fun w => mkWorld (invoices w) (filteredInvoices w) v
                     (searchVehicle w) (dateRange w)
                     (localStorage_invoices w)).

Definition setSearchVehicle (v : string) : M unit :=
  modify (fun w => mkWorld (invoices w) (filteredInvoices w)
                     (invoiceToDelete w) v (dateRange w)
                     (localStorage_invoices w)).

Definition setDateRange (v : DateRange) : M unit :=
  modify (fun w => mkWorld (invoices w) (filteredInvoices w)
                     (invoiceToDelete w) (searchVehicle w) v
                     (localStorage_invoices w)).

(** [localStorage.setItem('invoices', JSON.stringify(v))] *)
Definition localStorage_setItem_invoices (v : list Invoice) : M unit :=
  emit (LocalStorage_setItem "invoices" v) ;;
  modify (fun w => mkWorld (invoices w) (filteredInvoices w)
                     (invoiceToDelete w) (searchVehicle w) (dateRange w)
                     (Some v)).

(** [JSON.parse(localStorage.getItem('invoices') || '[]')] *)
Definition localStorage_getItem_invoices : M (list Invoice) :=
  w <- getWorld ;;
  ret (match localStorage_invoices w with
       | Some stored => stored
       | None => []
       end).

Definition toast_success (msg : string) : M unit := emit (Toast_success msg).
Definition toast_error (msg : string) : M unit := emit (Toast_error msg).
Definition console_error (label : string) (error : JsError) : M unit :=
  emit (Console_error label error).
Definition navigate (path : string) : M unit := emit (Navigate path).
Definition window_open (url target : string) : M unit :=
  emit (Window_open url target).

(** [new jsPDF()] and the methods of the document the source calls.  A
    drawing method answers the document with the call recorded. *)
Definition jsPDF_new : M Doc := emit JsPDF_new ;; ret [].

Definition doc_setFontSize (doc : Doc) (size : Z) : M Doc :=
  emit (JsPDF_call (SetFontSize size)) ;; ret (doc ++ [SetFontSize size]).

Definition doc_text (doc : Doc) (text : string) (x y : Z) : M Doc :=
  emit (JsPDF_call (Text text x y)) ;; ret (doc ++ [Text text x y]).

Definition doc_save (doc : Doc) (filename : string) : M unit :=
  emit (JsPDF_save doc filename).

Definition doc_output_blob (doc : Doc) : M Doc :=
  emit (JsPDF_output_blob doc) ;; ret doc.

(** [await navigator.share(data)]: a rejected promise is thrown at the
    [await]. *)
Definition navigator_share (shareFn : ShareData -> Completion unit)
    (data : ShareData) : M unit :=
  emit (Navigator_share data) ;;
  match shareFn data with
  | Normal _ => ret tt
  | Throw e => throw e
  end.

(** date-fns [format(d, 'PPP')]: a [RangeError] on an Invalid Date. *)
Definition format_PPP (d : Date) : M string :=
  match d with
  | ValidDate t => ret (formatPPP t)
  | InvalidDate => throw (mkError "RangeError" "Invalid time value")
  end.

(** [list.forEach(callback)] *)
Fixpoint forEach {A : Type} (l : list A) (callback : A -> M unit)
  : M unit :=
  match l with
  | [] => ret tt
  | x :: rest => callback x ;; forEach rest callback
  end.

(* ================================================================ *)
(** ** The component                                                 *)
(* ================================================================ *)

(** Lines 52-55. *)
Definition parseInvoiceDate (date : string) : Date :=
  let d := Date_new date in
  if isNaN_getTime d then parseISO date else d.

(** The callback of the first [filter], line 79. *)
Definition matchesVehicle (searchVehicle : string) (invoice : Invoice)
  : bool :=
  includes (toLowerCase (vehicleNumber invoice))
           (toLowerCase (trim searchVehicle)).

(** The callback of the second [filter], lines 84-90. *)
Definition withinRange (rangeFrom rangeTo : Date) (invoice : Invoice)
  : bool :=
  let dateObj := parseInvoiceDate (date invoice) in
  (isAfter dateObj rangeFrom || isEqual dateObj rangeFrom) &&
  (isBefore dateObj rangeTo || isEqual dateObj rangeTo).

(** The body of the second effect, lines 75-91: the value that is handed
    to [setFilteredInvoices]. *)
Definition filterInvoices (invoices : list Invoice)
    (searchVehicle : string) (dateRange : DateRange) : list Invoice :=
  let result := invoices in
  let result :=
    if negb (isEmpty (trim searchVehicle))
    then filter (matchesVehicle searchVehicle) result
    else result in
  let result :=
    match from dateRange, to dateRange with
    | Some rangeFrom, Some rangeTo =>
        filter (withinRange rangeFrom rangeTo) result
    | _, _ => result
    end in
  result.

(** The first effect, lines 68-72. *)
Definition loadEffect : M unit :=
  storedInvoices <- localStorage_getItem_invoices ;;
  setInvoices storedInvoices ;;
  setFilteredInvoices storedInvoices.

(** The second effect, lines 74-94. *)
Definition filterEffect : M unit :=
  w <- getWorld ;;
  setFilteredInvoices
    (filterInvoices (invoices w) (searchVehicle w) (dateRange w)).

(** Lines 96-100. *)
Definition resetFilters : M unit :=
  w <- getWorld ;;
  setSearchVehicle "" ;;
  setDateRange (mkDateRange None None) ;;
  setFilteredInvoices (invoices w).

(** The [forEach] of lines 118-121, with the local [currentY] it
    updates. *)
Fixpoint textServices (doc : Doc) (services : list ServiceItem)
    (index : nat) (currentY : Z) : M (Doc * Z) :=
  match services with
  | [] => ret (doc, currentY)
  | service :: rest =>
      doc <- doc_text doc
               (ofIndex (index + 1) ++ ". " ++ description service ++
                " - ₹" ++ Number_toString (amount service))
               20 currentY ;;
      textServices doc rest (S index) (currentY + 8)
  end.

(** Lines 102-127. *)
Definition generatePdf (invoice : Invoice) : M Doc :=
  doc <- jsPDF_new ;;
  doc <- doc_setFontSize doc 16 ;;
  doc <- doc_text doc ("Invoice #" ++ id invoice) 14 20 ;;
  doc <- doc_setFontSize doc 12 ;;
  formatted <- format_PPP (parseInvoiceDate (date invoice)) ;;
  doc <- doc_text doc ("Date: " ++ formatted) 14 30 ;;
  doc <- doc_text doc ("Customer Name: " ++ customerName invoice) 14 40 ;;
  doc <- doc_text doc ("Phone: " ++ customerPhone invoice) 14 50 ;;
  doc <- doc_text doc ("Vehicle Model: " ++ vehicleModel invoice) 14 60 ;;
  doc <- doc_text doc ("Vehicle Number: " ++ vehicleNumber invoice) 14 70 ;;
  let currentY := 85%Z in
  doc <- doc_text doc "Services:" 14 currentY ;;
  let currentY := (currentY + 8)%Z in
  drawn <- textServices doc (services invoice) 0 currentY ;;
  let doc := fst drawn in
  let currentY := (snd drawn + 5)%Z in
  doc <- doc_text doc ("Total: ₹" ++ Number_toString (total invoice))
           14 currentY ;;
  ret doc.

(** Lines 129-133. *)
Definition downloadInvoice (invoice : Invoice) : M unit :=
  doc <- generatePdf invoice ;;
  let safeName := replaceSpaceRuns false (customerName invoice) in
  doc_save doc ("Invoice_" ++ safeName ++ "_" ++ id invoice ++ ".pdf").

(** The [try] block of [handleShare], lines 142-162. *)
Definition shareAttempt (nav : Navigator) (invoice : Invoice) : M unit :=
  doc <- generatePdf invoice ;;
  pdfBlob <- doc_output_blob doc ;;
  let pdfFile :=
    mkFile pdfBlob ("Invoice_" ++ id invoice ++ ".pdf") "application/pdf" in
  match share nav with
  | Some shareFn =>
      navigator_share shareFn
        (mkShareData
           ("Invoice " ++ id invoice)
           ("Hi " ++ customerName invoice ++ ", here's your invoice for " ++
            vehicleModel invoice ++ " (" ++ vehicleNumber invoice ++ ")")
           [pdfFile])
  | None =>
      let phone := replaceNonDigits (customerPhone invoice) in
      let message :=
        encodeURIComponent
          (("Hi " ++ customerName invoice ++ ", here's your invoice for " ++
            vehicleModel invoice ++ " (" ++ vehicleNumber invoice ++ ")." ++
            newline) ++
           ("Total: ₹" ++ Number_toString (total invoice) ++ newline) ++
           "Download PDF:") in
      window_open ("https://wa.me/" ++ phone ++ "?text=" ++ message) "_blank"
  end.

(** The [catch] block of [handleShare], lines 163-168. *)
Definition shareFailed (error : JsError) : M unit :=
  console_error "Sharing failed:" error ;;
  if negb (name error =? "AbortError")%string
  then toast_error "Sharing failed. Please try again."
  else ret tt.

(** Lines 135-169. *)
Definition handleShare (nav : Navigator) (invoice : Invoice) : M unit :=
  if isEmpty (customerPhone invoice)
  then toast_error "Customer phone number is missing."
  else try_catch (shareAttempt nav invoice) shareFailed.

(** Lines 171-178. *)
Definition saveAllInvoicesAsPDF : M unit :=
  w <- getWorld ;;
  forEach (filteredInvoices w)
    (fun invoice =>
       doc <- generatePdf invoice ;;
       let safeName := replaceSpaceRuns false (customerName invoice) in
       doc_save doc ("Invoice_" ++ safeName ++ "_" ++ id invoice ++ ".pdf")) ;;
  toast_success "All invoices saved as PDFs".

(** Lines 180-182. *)
Definition handleEdit (id : string) : M unit :=
  navigate ("/edit/" ++ id).

(** Lines 184-191. *)
Definition handleDelete (id' : string) : M unit :=
  w <- getWorld ;;
  let updatedInvoices :=
    filter (fun invoice => negb (id invoice =? id')%string) (invoices w) in
  localStorage_setItem_invoices updatedInvoices ;;
  setInvoices updatedInvoices ;;
  setFilteredInvoices updatedInvoices ;;
  toast_success "Invoice deleted successfully" ;;
  setInvoiceToDelete None.

(** The three buttons of the confirmation: the trash button of a card
    (line 285), "Cancel" (line 302) and "Delete" (line 313), which calls
    [handleDelete] only for a pending id that is truthy. *)
Definition requestDelete (id : string) : M unit :=
  setInvoiceToDelete (Some id).

Definition cancelDelete : M unit := setInvoiceToDelete None.

Definition confirmDelete : M unit :=
  w <- getWorld ;;
  match invoiceToDelete w with
  | Some pending =>
      if isEmpty pending then ret tt else handleDelete pending
  | None => ret tt
  end.

(** A confirmed delete as the controller performs it: the handler, then
    the second effect, which runs again because [invoices] changed. *)
Definition deleteTransition (id : string) : M unit :=
  handleDelete id ;; filterEffect.

End Component.

(* ================================================================== *)
(** ** A runtime to evaluate the model on                              *)
(* ================================================================== *)

(** The theorems below hold for every runtime.  The examples need one to
    compute with: amounts are whole numbers, both parsers read the calendar
    form [YYYY-MM-DD] as midnight UTC (a browser whose time zone is UTC) and
    answer an Invalid Date for any other text, and [toLowerCase] lowers the
    ASCII letters, as the language does on ASCII text. *)
Module SampleRuntime.

Local Open Scope Z_scope.

Definition digitValue (c : ascii) : option Z :=
  if isDigit c then Some (Z.of_nat (nat_of_ascii c) - 48) else None.

Fixpoint digitsValue (acc : Z) (cs : list ascii) : option Z :=
  match cs with
  | [] => Some acc
  | c :: rest =>
      match digitValue c with
      | Some v => digitsValue (10 * acc + v) rest
      | None => None
      end
  end.

Definition isLeap (y : Z) : bool :=
  ((y mod 4 =? 0) && negb (y mod 100 =? 0)) || (y mod 400 =? 0).

Definition daysInMonth (y m : Z) : Z :=
  if m =? 2 then (if isLeap y then 29 else 28)
  else if (m =? 4) || (m =? 6) || (m =? 9) || (m =? 11) then 30
  else 31.

(** Days from 1970-01-01 to the civil date [y-m-d]. *)
Definition daysFromCivil (y m d : Z) : Z :=
  let y' := if m <=? 2 then y - 1 else y in
  let era := y' / 400 in
  let yoe := y' - era * 400 in
  let doy := (153 * (if 2 <? m then m - 3 else m + 9) + 2) / 5 + d - 1 in
  let doe := yoe * 365 + yoe / 4 - yoe / 100 + doy in
  era * 146097 + doe - 719468.

(** The civil date, as year, month and day, of a day count. *)
Definition civilFromDays (z : Z) : Z * Z * Z :=
  let z := z + 719468 in
  let era := z / 146097 in
  let doe := z - era * 146097 in
  let yoe := (doe - doe / 1460 + doe / 36524 - doe / 146096) / 365 in
  let doy := doe - (365 * yoe + yoe / 4 - yoe / 100) in
  let mp := (5 * doy + 2) / 153 in
  let d := doy - (153 * mp + 2) / 5 + 1 in
  let m := if mp <? 10 then mp + 3 else mp - 9 in
  let y := yoe + era * 400 + (if m <=? 2 then 1 else 0) in
  (y, m, d).

Definition msPerDay : Z := 86400000.

Definition parseCalendarDate (s : string) : Date :=
  match list_ascii_of_string s with
  | [y1; y2; y3; y4; "-"%char; m1; m2; "-"%char; d1; d2] =>
      match digitsValue 0 [y1; y2; y3; y4], digitsValue 0 [m1; m2],
            digitsValue 0 [d1; d2] with
      | Some y, Some m, Some d =>
          if (1 <=? m) && (m <=? 12) && (1 <=? d) && (d <=? daysInMonth y m)
          then ValidDate (daysFromCivil y m d * msPerDay)
          else InvalidDate
      | _, _, _ => InvalidDate
      end
  | _ => InvalidDate
  end.

Definition ofZ (z : Z) : string := NilEmpty.string_of_int (Z.to_int z).

Definition monthName (m : Z) : string :=
  nth (Z.to_nat (m - 1))
    ["January"; "February"; "March"; "April"; "May"; "June"; "July";
     "August"; "September"; "October"; "November"; "December"]%string
    ""%string.

Definition ordinalSuffix (d : Z) : string :=
  if (11 <=? d mod 100) && (d mod 100 <=? 13) then "th"%string
  else if d mod 10 =? 1 then "st"%string
  else if d mod 10 =? 2 then "nd"%string
  else if d mod 10 =? 3 then "rd"%string
  else "th"%string.

(** The long localized date of the pattern ['PPP'] in the default
    locale, such as "February 10th, 2024". *)
Definition formatLongDate (t : Z) : string :=
  match civilFromDays (t / msPerDay) with
  | (y, m, d) =>
      (monthName m ++ " " ++ ofZ d ++ ordinalSuffix d ++ ", " ++ ofZ y)%string
  end.

#[export] Instance runtime : JsRuntime := {
  number := Z;
  Number_toString := ofZ;
  Date_new := parseCalendarDate;
  parseISO := parseCalendarDate;
  formatPPP := formatLongDate;
  toLowerCase := lowerAsciiText
}.

(** The two invoices of the scenario of the specification, and one
    whose date is no date. *)
Definition invoice1 : Invoice :=
  mkInvoice "1" "2024-01-05" "Asha Rao" "+91 98450 12345" "Swift"
    "KA01AB1234" [mkServiceItem "AC gas refill" 300;
                  mkServiceItem "Filter cleaning" 200] 500.

Definition invoice2 : Invoice :=
  mkInvoice "2" "2024-02-10" "Vikram  N" "" "Innova"
    "KA02CD5678" [mkServiceItem "Compressor repair" 800] 800.

Definition invoice3 : Invoice :=
  mkInvoice "3" "someday" "Ravi" "   " "Alto" "TN09XY0001" [] 0.

Definition collection : list Invoice := [invoice1; invoice2; invoice3].

Definition noRange : DateRange := mkDateRange None None.

Definition february : DateRange :=
  mkDateRange (Some (parseCalendarDate "2024-02-01"))
              (Some (parseCalendarDate "2024-02-28")).

Definition world0 : World :=
  mkWorld collection collection None "" noRange (Some collection).

Definition worldFebruary : World :=
  mkWorld collection collection None "" february (Some collection).

Definition noShare : Navigator := mkNavigator None.

Definition shareCancelled : Navigator :=
  mkNavigator (Some (fun _ => Throw (mkError "AbortError" "Share canceled"))).

Definition shareFulfilled : Navigator :=
  mkNavigator (Some (fun _ => Normal tt)).

Definition shareDenied : Navigator :=
  mkNavigator
    (Some (fun _ => Throw (mkError "NotAllowedError" "Permission denied"))).

(** A world whose view holds the two dated invoices only, and a world
    whose store has no entry. *)
Definition worldDated : World :=
  mkWorld collection [invoice1; invoice2] None "" noRange (Some collection).

Definition worldFresh : World :=
  mkWorld [] [] None "" noRange None.

End SampleRuntime.

(* ================================================================== *)
(** ** The vocabulary of the specification                             *)
(* ================================================================== *)

Section Vocabulary.

Context {A : Type}.

(** [Selects P l r]: [r] is what remains of [l] when exactly the elements
    that satisfy [P] are kept, each one as it is and in the order of
    [l]. *)
Inductive Selects (P : A -> Prop) : list A -> list A -> Prop :=
| Selects_nil : Selects P [] []
| Selects_keep (x : A) (l r : list A) :
    P x -> Selects P l r -> Selects P (x :: l) (x :: r)
| Selects_drop (x : A) (l r : list A) :
    ~ P x -> Selects P l r -> Selects P (x :: l) r.

(** [Subsequence r l]: [r] is [l] with some elements left out. *)
Inductive Subsequence : list A -> list A -> Prop :=
| Subsequence_nil : Subsequence [] []
| Subsequence_cons (x : A) (r l : list A) :
    Subsequence r l -> Subsequence (x :: r) (x :: l)
| Subsequence_skip (x : A) (r l : list A) :
    Subsequence r l -> Subsequence r (x :: l).

End Vocabulary.

(** A text made of white-space characters only. *)
Inductive WhiteSpaceOnly : string -> Prop :=
| WhiteSpaceOnly_none : WhiteSpaceOnly EmptyString
| WhiteSpaceOnly_more (w rest : string) :
    In w whiteSpaceChars -> WhiteSpaceOnly rest ->
    WhiteSpaceOnly (w ++ rest)%string.

Definition StartsWithWhiteSpace (t : string) : Prop :=
  exists w rest : string, In w whiteSpaceChars /\ t = (w ++ rest)%string.

Definition EndsWithWhiteSpace (t : string) : Prop :=
  exists rest w : string, In w whiteSpaceChars /\ t = (rest ++ w)%string.

(** Some white-space character occurs in [t]. *)
Definition ContainsWhiteSpace (t : string) : Prop :=
  exists before w after : string,
    In w whiteSpaceChars /\ t = (before ++ w ++ after)%string.

(** [t] is [s] trimmed: [s] is [t] between two texts of white space, and
    [t] neither starts nor ends with a white-space character. *)
Definition TrimmedOf (s t : string) : Prop :=
  exists lead trail : string,
    s = (lead ++ t ++ trail)%string
    /\ WhiteSpaceOnly lead /\ WhiteSpaceOnly trail
    /\ ~ StartsWithWhiteSpace t /\ ~ EndsWithWhiteSpace t.

(** [out] is [s] with every maximal run of white-space characters
    replaced by one underscore. *)
Inductive CollapsesRuns : string -> string -> Prop :=
| CollapsesRuns_end : CollapsesRuns EmptyString EmptyString
| CollapsesRuns_keep (c : ascii) (rest out : string) :
    ~ StartsWithWhiteSpace (String c rest) ->
    CollapsesRuns rest out ->
    CollapsesRuns (String c rest) (String c out)
| CollapsesRuns_run (run rest out : string) :
    WhiteSpaceOnly run -> run <> EmptyString ->
    ~ StartsWithWhiteSpace rest ->
    CollapsesRuns rest out ->
    CollapsesRuns (run ++ rest)%string (String "_" out).







Section Criteria.

Context {RT : JsRuntime}.

(** [needle] occurs in [hay] when case is ignored the way the language
    ignores it: the lower-case form of [hay] has the lower-case form of
    [needle] as a stretch. *)
Definition ContainsIgnoringCase (hay needle : string) : Prop :=
  exists before after : string,
    toLowerCase hay = (before ++ toLowerCase needle ++ after)%string.

(** The vehicle criterion of the filter for the search text [s]: inactive
    when [s] is blank. *)
Definition VehicleCriterion (s : string) (invoice : Invoice) : Prop :=
  trim s = "" \/ ContainsIgnoringCase (vehicleNumber invoice) (trim s).

(** The date criterion for the range from [a] to [b]: the date of the
    invoice parses, to a time between the two bounds, bounds included. *)
Definition DateCriterion (a b : Z) (invoice : Invoice) : Prop :=
  exists d : Z,
    parseInvoiceDate (date invoice) = ValidDate d /\ (a <= d <= b)%Z.

(** The line of the service at position [n], counted from 1. *)
Definition serviceLine (n : nat) (service : ServiceItem) : string :=
  ofIndex n ++ ". " ++ description service ++ " - ₹" ++
  Number_toString (amount service).

Fixpoint numberedServiceLines (n : nat) (services : list ServiceItem)
  : list string :=
  match services with
  | [] => []
  | service :: rest => serviceLine n service :: numberedServiceLines (S n) rest
  end.

(** The six lines that head the document, for the formatted date
    [formatted]. *)
Definition headerLines (invoice : Invoice) (formatted : string)
  : list string :=
  [ "Invoice #" ++ id invoice;
    "Date: " ++ formatted;
    "Customer Name: " ++ customerName invoice;
    "Phone: " ++ customerPhone invoice;
    "Vehicle Model: " ++ vehicleModel invoice;
    "Vehicle Number: " ++ vehicleNumber invoice ]%string.

Definition totalLine (invoice : Invoice) : string :=
  "Total: ₹" ++ Number_toString (total invoice).

(** The lines of section 4.2 of the specification, in its order: the six
    header lines, the numbered service lines, the total line. *)
Definition specifiedLines (invoice : Invoice) (formatted : string)
  : list string :=
  headerLines invoice formatted ++
  numberedServiceLines 1 (services invoice) ++
  [totalLine invoice].

(** The drawing calls of the service lines, from index [index] and
    height [y] on. *)
Fixpoint serviceOps (services : list ServiceItem) (index : nat) (y : Z)
  : list DocOp :=
  match services with
  | [] => []
  | service :: rest =>
      Text (serviceLine (index + 1) service) 20 y ::
      serviceOps rest (S index) (y + 8)
  end.

(** The drawing calls of a whole document whose date has the time value
    [t]. *)
Definition documentOps (invoice : Invoice) (t : Z) : list DocOp :=
  [ SetFontSize 16;
    Text ("Invoice #" ++ id invoice) 14 20;
    SetFontSize 12;
    Text ("Date: " ++ formatPPP t) 14 30;
    Text ("Customer Name: " ++ customerName invoice) 14 40;
    Text ("Phone: " ++ customerPhone invoice) 14 50;
    Text ("Vehicle Model: " ++ vehicleModel invoice) 14 60;
    Text ("Vehicle Number: " ++ vehicleNumber invoice) 14 70;
    Text "Services:" 14 85 ] ++
  serviceOps (services invoice) 0 93 ++
  [ Text (totalLine invoice) 14
      (93 + 8 * Z.of_nat (List.length (services invoice)) + 5) ].

(** The text that the fallback of [handleShare] puts in the link. *)
Definition shareMessage (invoice : Invoice) : string :=
  encodeURIComponent
    (("Hi " ++ customerName invoice ++ ", here's your invoice for " ++
      vehicleModel invoice ++ " (" ++ vehicleNumber invoice ++ ")." ++
      newline) ++
     ("Total: ₹" ++ Number_toString (total invoice) ++ newline) ++
     "Download PDF:").

(** The events that are calls to the document generation or to the
    share collaborators. *)
Definition isCollaboratorCall (e : Event) : bool :=
  match e with
  | JsPDF_new | JsPDF_call _ | JsPDF_output_blob _ | JsPDF_save _ _
  | Navigator_share _ | Window_open _ _ => true
  | _ => false
  end.

(** The share data handed to [navigator.share]. *)
Definition nativeShareData (invoice : Invoice) (doc : Doc) : ShareData :=
  mkShareData
    ("Invoice " ++ id invoice)
    ("Hi " ++ customerName invoice ++ ", here's your invoice for " ++
     vehicleModel invoice ++ " (" ++ vehicleNumber invoice ++ ")")
    [mkFile doc ("Invoice_" ++ id invoice ++ ".pdf") "application/pdf"].

(** The notification of the validation of [handleShare]. *)
Definition isMissingPhoneToast (e : Event) : bool :=
  match e with
  | Toast_error msg => (msg =? "Customer phone number is missing.")%string
  | _ => false
  end.

(** A step that leaves the world as it found it. *)
Definition Frames {A : Type} (m : M A) : Prop :=
  forall w, world (m w) = w.

End Criteria.

(* ================================================================== *)
(** ** Rendering (lines 193-322)                                       *)
(* ================================================================== *)

Section Rendering.

Context {RT : JsRuntime}.

(** What one card of the list shows: the React key, the customer name,
    the phone line when the phone is truthy, the vehicle line, the total
    and the formatted date. *)
Record Card : Type := mkCard {
  cardKey : string;
  cardName : string;
  cardPhone : option string;
  cardVehicle : string;
  cardTotal : string;
  cardDate : string
}.

(** What the component shows: the label of the date-range button, the
    value of the search input, the cards, whether "No invoices found" is
    shown and whether the confirmation dialog is open. *)
Record View : Type := mkView {
  rangeLabel : string;
  searchInput : string;
  cards : list Card;
  noInvoicesFound : bool;
  dialogOpen : bool
}.

(** date-fns [format(d, 'PPP')] as a value: a [RangeError] on an Invalid
    Date. *)
Definition formatDate (d : Date) : Completion string :=
  match d with
  | ValidDate t => Normal (formatPPP t)
  | InvalidDate => Throw (mkError "RangeError" "Invalid time value")
  end.

(** The callback of [filteredInvoices.map], lines 249-294. *)
Definition renderCard (invoice : Invoice) : Completion Card :=
  match formatDate (parseInvoiceDate (date invoice)) with
  | Normal formatted =>
      Normal (mkCard (id invoice) (customerName invoice)
                (if isEmpty (customerPhone invoice) then None
                 else Some (customerPhone invoice))
                (vehicleModel invoice ++ " - " ++ vehicleNumber invoice)
                ("₹" ++ Number_toString (total invoice))
                formatted)
  | Throw e => Throw e
  end.

(** [filteredInvoices.map(...)]: the first card that throws ends the
    rendering. *)
Fixpoint renderCards (shown : list Invoice) : Completion (list Card) :=
  match shown with
  | [] => Normal []
  | invoice :: rest =>
      match renderCard invoice with
      | Normal card =>
          match renderCards rest with
          | Normal others => Normal (card :: others)
          | Throw e => Throw e
          end
      | Throw e => Throw e
      end
  end.

(** The label of the date-range button, lines 207-209. *)
Definition renderRangeLabel (range : DateRange) : Completion string :=
  match from range, to range with
  | Some rangeFrom, Some rangeTo =>
      match formatDate rangeFrom with
      | Normal a =>
          match formatDate rangeTo with
          | Normal b => Normal (a ++ " - " ++ b)%string
          | Throw e => Throw e
          end
      | Throw e => Throw e
      end
  | _, _ => Normal "Search by Date Range"
  end.

(** [!!invoiceToDelete], line 302. *)
Definition isPending (pending : option string) : bool :=
  match pending with
  | Some pendingId => negb (isEmpty pendingId)
  | None => false
  end.

(** The body of the [return] of the component, lines 193-322. *)
Definition render (w : World) : Completion View :=
  match renderRangeLabel (dateRange w) with
  | Normal label =>
      match renderCards (filteredInvoices w) with
      | Normal shown =>
          Normal (mkView label (searchVehicle w) shown
                    (Nat.eqb (List.length (filteredInvoices w)) 0)
                    (isPending (invoiceToDelete w)))
      | Throw e => Throw e
      end
  | Throw e => Throw e
  end.

End Rendering.

(* ================================================================== *)
(** ** Further vocabulary: traces, names, layout                       *)
(* ================================================================== *)

(** Every character of [s] passes the test [p]. *)
Fixpoint forallChars (p : ascii -> bool) (s : string) : bool :=
  match s with
  | EmptyString => true
  | String c rest => p c && forallChars p rest
  end.

(** A continuation byte of a UTF-8 encoding. *)
Definition isContinuation (c : ascii) : bool :=
  (128 <=? nat_of_ascii c)%nat && (nat_of_ascii c <? 192)%nat.

(** A character that cannot end or split a query string: one that
    [encodeURIComponent] keeps, or the percent sign of an escape. *)
Definition isUrlSafe (c : ascii) : bool :=
  isUriUnreserved c || (nat_of_ascii c =? 37)%nat.

Section Observations.

Context {RT : JsRuntime}.

(** The date of the invoice parses. *)
Definition DateParses (invoice : Invoice) : Prop :=
  exists t : Z, parseInvoiceDate (date invoice) = ValidDate t.

(** The name of the file that an export of the invoice saves. *)
Definition exportFileName (invoice : Invoice) : string :=
  "Invoice_" ++ replaceSpaceRuns false (customerName invoice) ++ "_" ++
  id invoice ++ ".pdf".

(** The names of the files saved along a trace, in order. *)
Fixpoint savedFiles (tr : list Event) : list string :=
  match tr with
  | [] => []
  | JsPDF_save _ filename :: rest => filename :: savedFiles rest
  | _ :: rest => savedFiles rest
  end.

(** The notifications shown along a trace, in order. *)
Fixpoint toasts (tr : list Event) : list Event :=
  match tr with
  | [] => []
  | Toast_success msg :: rest => Toast_success msg :: toasts rest
  | Toast_error msg :: rest => Toast_error msg :: toasts rest
  | _ :: rest => toasts rest
  end.

(** The share and link calls along a trace, in order. *)
Fixpoint shareCalls (tr : list Event) : list Event :=
  match tr with
  | [] => []
  | Navigator_share data :: rest => Navigator_share data :: shareCalls rest
  | Window_open url target :: rest => Window_open url target :: shareCalls rest
  | _ :: rest => shareCalls rest
  end.

(** The heights at which the texts of a document are drawn, in drawing
    order. *)
Fixpoint textHeights (doc : Doc) : list Z :=
  match doc with
  | [] => []
  | SetFontSize _ :: rest => textHeights rest
  | Text _ _ y :: rest => y :: textHeights rest
  end.

(** The master collection without the invoices of id [X]. *)
Definition withoutId (X : string) (C : list Invoice) : list Invoice :=
  filter (fun invoice => negb (id invoice =? X)%string) C.

(** The dialog flow: the trash button of a card, then "Delete". *)
Definition requestThenConfirm (X : string) : M unit :=
  requestDelete X ;; confirmDelete.

(** The dialog flow: the trash button of a card, then "Cancel". *)
Definition requestThenCancel (X : string) : M unit :=
  requestDelete X ;; cancelDelete.

(** "Reset" as the controller performs it: the handler, then the second
    effect, which runs again because the criteria changed. *)
Definition resetTransition : M unit :=
  resetFilters ;; filterEffect.

End Observations.

(** Computes an outcome through the plumbing of [M], as far as the
    handler is known. *)
Ltac run_handler :=
  cbn [bind ret throw emit modify getWorld try_catch
       toast_success toast_error console_error navigate window_open
       jsPDF_new doc_setFontSize doc_text doc_save doc_output_blob
       setInvoices setFilteredInvoices setInvoiceToDelete setSearchVehicle
       setDateRange localStorage_setItem_invoices
       trace world completion app fst snd].

(* ================================================================== *)
(** ** Strings: occurrence and case                                    *)
(* ================================================================== *)

Section StringFacts.

Local Open Scope string_scope.

Lemma isEmpty_true (s : string) : isEmpty s = true <-> s = "".
Proof. destruct s; simpl; split; congruence. Qed.

Lemma isEmpty_false (s : string) : isEmpty s = false <-> s <> "".
Proof. destruct s; simpl; split; congruence. Qed.

Lemma prefix_app (n h : string) :
  prefix n h = true <-> exists after, h = n ++ after.
Proof.
  revert h; induction n as [|c n IH]; intros h.
  - split; [exists h; reflexivity | destruct h; reflexivity].
  - destruct h as [|c' h]; simpl.
    + split; [discriminate | intros [after H]; discriminate].
    + destruct (ascii_dec c c') as [->|Hne].
      * rewrite IH. split; intros [after H]; exists after.
        -- now rewrite H.
        -- now inversion H.
      * split; [discriminate | intros [after H]; inversion H; congruence].
Qed.

Lemma includes_unfold (h n : string) :
  includes h n =
  prefix n h || match h with
                | EmptyString => false
                | String _ rest => includes rest n
                end.
Proof. destruct h; reflexivity. Qed.

Lemma includes_occurs (h n : string) :
  includes h n = true <-> exists before after, h = before ++ n ++ after.
Proof.
  induction h as [|c h IH]; rewrite includes_unfold, orb_true_iff, prefix_app.
  - split.
    + intros [[after H]|H]; [|discriminate].
      exists "", after; assumption.
    + intros [before [after H]]. left.
      destruct before; simpl in H; [exists after; assumption | discriminate].
  - rewrite IH. split.
    + intros [[after H]|[before [after H]]].
      * exists "", after; assumption.
      * exists (String c before), after. simpl. now rewrite H.
    + intros [before [after H]]. destruct before as [|c' before]; simpl in H.
      * left; exists after; assumption.
      * right; exists before, after. now inversion H.
Qed.

Lemma string_app_assoc (a b c : string) : (a ++ b) ++ c = a ++ b ++ c.
Proof. induction a as [|x a IH]; simpl; [reflexivity | now rewrite IH]. Qed.

Lemma string_app_empty (a : string) : a ++ "" = a.
Proof. induction a as [|x a IH]; simpl; [reflexivity | now rewrite IH]. Qed.

Lemma string_app_length (a b : string) :
  String.length (a ++ b) = String.length a + String.length b.
Proof. induction a as [|x a IH]; simpl; [reflexivity | now rewrite IH]. Qed.




Lemma replaceNonDigits_noDigit (s : string) :
  noDigit s = true -> replaceNonDigits s = "".
Proof.
  induction s as [|c s IH]; simpl; [reflexivity|].
  intros H. apply andb_true_iff in H as [Hc Hs].
  apply negb_true_iff in Hc. rewrite Hc. auto.
Qed.

(** *** One white-space character at the start *)

Lemma stripPrefix_spec (w s r : string) :
  stripPrefix w s = Some r <-> s = w ++ r.
Proof.
  revert s; induction w as [|a w IH]; intros s; simpl.
  - split; [intros H; now inversion H | intros ->; reflexivity].
  - destruct s as [|b s]; [split; discriminate|].
    destruct (Ascii.eqb a b) eqn:Hab.
    + apply Ascii.eqb_eq in Hab. subst b. rewrite IH.
      split; [intros ->; reflexivity | intros H; now inversion H].
    + apply Ascii.eqb_neq in Hab.
      split; [discriminate | intros H; inversion H; congruence].
Qed.

Lemma stripAny_sound (ws : list string) (s r : string) :
  stripAny ws s = Some r -> exists w, In w ws /\ s = w ++ r.
Proof.
  induction ws as [|w ws IH]; simpl; [discriminate|].
  destruct (stripPrefix w s) as [r'|] eqn:Hw.
  - intros H. inversion H; subst r'. apply stripPrefix_spec in Hw. eauto.
  - intros H. destruct (IH H) as (w' & Hin & Hs). eauto.
Qed.

Lemma stripAny_complete (ws : list string) (s w r : string) :
  In w ws -> s = w ++ r -> exists r', stripAny ws s = Some r'.
Proof.
  induction ws as [|w0 ws IH]; simpl; [contradiction|].
  intros Hin Hs. destruct (stripPrefix w0 s) as [r'|] eqn:Hw0; [eauto|].
  destruct Hin as [->|Hin]; [|eauto].
  apply stripPrefix_spec in Hs. congruence.
Qed.

Lemma whiteSpaceAt_sound (s r : string) :
  whiteSpaceAt s = Some r -> exists w, In w whiteSpaceChars /\ s = w ++ r.
Proof. apply stripAny_sound. Qed.

(** No white-space character is the start of another: after one of them
    is matched, what follows is what follows it. *)
Lemma whiteSpaceAt_char (w x : string) :
  In w whiteSpaceChars -> whiteSpaceAt (w ++ x) = Some x.
Proof.
  intros Hin. cbv [whiteSpaceChars map utf8 string_of_list_ascii] in Hin.
  cbn [In] in Hin.
  repeat (destruct Hin as [<-|Hin]; [reflexivity|]). contradiction.
Qed.

Lemma whiteSpaceChar_length (w : string) :
  In w whiteSpaceChars -> 1 <= String.length w.
Proof.
  intros Hin. cbv [whiteSpaceChars map utf8 string_of_list_ascii] in Hin.
  cbn [In] in Hin.
  repeat (destruct Hin as [<-|Hin]; [simpl; lia|]). contradiction.
Qed.

Lemma whiteSpaceAt_none (s : string) :
  whiteSpaceAt s = None <-> ~ StartsWithWhiteSpace s.
Proof.
  split.
  - intros Hnone (w & rest & Hin & ->).
    rewrite (whiteSpaceAt_char w rest Hin) in Hnone. discriminate.
  - intros Hstart. destruct (whiteSpaceAt s) as [r|] eqn:Hs; [|reflexivity].
    exfalso. apply Hstart. apply whiteSpaceAt_sound in Hs as (w & Hin & ->).
    exists w, r. auto.
Qed.

Lemma whiteSpaceAt_shorter (s r : string) :
  whiteSpaceAt s = Some r -> String.length r < String.length s.
Proof.
  intros H. apply whiteSpaceAt_sound in H as (w & Hin & ->).
  rewrite string_app_length. pose proof (whiteSpaceChar_length w Hin). lia.
Qed.

(** *** [trimStart] *)

Lemma trimStartFrom_spec (fuel : nat) :
  forall s, String.length s <= fuel ->
    exists lead,
      s = lead ++ trimStartFrom fuel s
      /\ WhiteSpaceOnly lead
      /\ whiteSpaceAt (trimStartFrom fuel s) = None.
Proof.
  induction fuel as [|fuel IH]; intros s Hlen.
  - destruct s; [|simpl in Hlen; lia].
    exists "". repeat split. constructor.
  - cbn [trimStartFrom]. destruct (whiteSpaceAt s) as [rest|] eqn:Hs.
    + pose proof (whiteSpaceAt_shorter s rest Hs) as Hshort.
      destruct (IH rest ltac:(lia)) as (lead & Hrest & Hlead & Hnone).
      apply whiteSpaceAt_sound in Hs as (w & Hin & ->).
      exists (w ++ lead). rewrite string_app_assoc, <- Hrest.
      repeat split; [now constructor | exact Hnone].
    + exists "". repeat split; [constructor | exact Hs].
Qed.

Lemma trimStart_spec (s : string) :
  exists lead,
    s = lead ++ trimStart s /\ WhiteSpaceOnly lead
    /\ ~ StartsWithWhiteSpace (trimStart s).
Proof.
  destruct (trimStartFrom_spec (String.length s) s (le_n _))
    as (lead & Hs & Hlead & Hnone).
  exists lead. repeat split; [exact Hs | exact Hlead |].
  now apply whiteSpaceAt_none.
Qed.

(** More fuel than the length changes nothing. *)
Lemma trimStartFrom_enough (fuel : nat) :
  forall fuel' s, String.length s <= fuel -> String.length s <= fuel' ->
    trimStartFrom fuel s = trimStartFrom fuel' s.
Proof.
  induction fuel as [|fuel IH]; intros fuel' s Hlen Hlen'.
  - destruct s; [|simpl in Hlen; lia]. destruct fuel'; reflexivity.
  - destruct fuel' as [|fuel'].
    + destruct s; [reflexivity | simpl in Hlen'; lia].
    + cbn [trimStartFrom]. destruct (whiteSpaceAt s) as [rest|] eqn:Hs;
        [|reflexivity].
      pose proof (whiteSpaceAt_shorter s rest Hs). apply IH; lia.
Qed.

Lemma trimStart_step (s rest : string) :
  whiteSpaceAt s = Some rest -> trimStart s = trimStart rest.
Proof.
  intros Hs. pose proof (whiteSpaceAt_shorter s rest Hs) as Hshort.
  unfold trimStart. destruct (String.length s) as [|n] eqn:Hn; [lia|].
  cbn [trimStartFrom]. rewrite Hs. apply trimStartFrom_enough; lia.
Qed.

Lemma trimStart_fixed (s : string) :
  ~ StartsWithWhiteSpace s -> trimStart s = s.
Proof.
  intros H. apply whiteSpaceAt_none in H. unfold trimStart.
  destruct (String.length s); cbn [trimStartFrom]; [|rewrite H]; reflexivity.
Qed.

Lemma WhiteSpaceOnly_app (a b : string) :
  WhiteSpaceOnly a -> WhiteSpaceOnly b -> WhiteSpaceOnly (a ++ b).
Proof.
  induction 1 as [|w rest Hin Hrest IH]; intros Hb; [exact Hb|].
  rewrite string_app_assoc. constructor; auto.
Qed.

Lemma trimStart_blank (s : string) : WhiteSpaceOnly s -> trimStart s = "".
Proof.
  induction 1 as [|w rest Hin Hrest IH]; [reflexivity|].
  now rewrite (trimStart_step _ rest (whiteSpaceAt_char w rest Hin)).
Qed.

(** The test of the code for a blank text is the notion of the
    vocabulary. *)
Lemma allWhiteSpace_iff (s : string) :
  allWhiteSpace s = true <-> WhiteSpaceOnly s.
Proof.
  unfold allWhiteSpace. split.
  - intros H. destruct (trimStart_spec s) as (lead & Hs & Hlead & _).
    destruct (trimStart s); [|discriminate].
    rewrite string_app_empty in Hs. now subst.
  - intros H. now rewrite (trimStart_blank s H).
Qed.

(** *** [trimEnd] and [trim] *)

Lemma trimEnd_cons (c : ascii) (rest : string) :
  trimEnd (String c rest) =
  if allWhiteSpace (String c rest) then "" else String c (trimEnd rest).
Proof. reflexivity. Qed.

Lemma trimEnd_split (t : string) :
  exists trail, t = trimEnd t ++ trail /\ WhiteSpaceOnly trail.
Proof.
  induction t as [|c rest (trail & Hrest & Htrail)].
  - exists "". split; [reflexivity | constructor].
  - rewrite trimEnd_cons. destruct (allWhiteSpace (String c rest)) eqn:Hall.
    + exists (String c rest). split; [reflexivity|]. now apply allWhiteSpace_iff.
    + exists trail. split; [|exact Htrail]. simpl. now rewrite <- Hrest.
Qed.

Lemma trimEnd_no_end (t : string) : ~ EndsWithWhiteSpace (trimEnd t).
Proof.
  intros (q & w & Hin & Hq). revert q Hq.
  induction t as [|c rest IH]; intros q Hq.
  - simpl in Hq. pose proof (whiteSpaceChar_length w Hin) as Hw.
    apply (f_equal String.length) in Hq. rewrite string_app_length in Hq.
    simpl in Hq. lia.
  - rewrite trimEnd_cons in Hq.
    destruct (allWhiteSpace (String c rest)) eqn:Hall.
    + pose proof (whiteSpaceChar_length w Hin) as Hw.
      apply (f_equal String.length) in Hq. rewrite string_app_length in Hq.
      simpl in Hq. lia.
    + destruct q as [|x q]; simpl in Hq.
      * destruct (trimEnd_split rest) as (trail & Hrest & Htrail).
        assert (Hblank : WhiteSpaceOnly (String c rest)).
        { replace (String c rest) with (w ++ trail).
          - now constructor.
          - rewrite <- Hq. simpl. now rewrite <- Hrest. }
        apply allWhiteSpace_iff in Hblank. congruence.
      * inversion Hq; subst. eauto.
Qed.

Lemma trimEnd_keeps_start (t : string) :
  ~ StartsWithWhiteSpace t -> ~ StartsWithWhiteSpace (trimEnd t).
Proof.
  intros Hstart (w & rest & Hin & Hw). apply Hstart.
  destruct (trimEnd_split t) as (trail & Ht & _).
  exists w, (rest ++ trail). split; [exact Hin|].
  rewrite Ht at 1. rewrite Hw. apply string_app_assoc.
Qed.

(** [trim] answers the trimmed text of the vocabulary. *)
Lemma trim_spec (s : string) : TrimmedOf s (trim s).
Proof.
  unfold trim.
  destruct (trimStart_spec s) as (lead & Hs & Hlead & Hstart).
  destruct (trimEnd_split (trimStart s)) as (trail & Ht & Htrail).
  exists lead, trail. repeat split.
  - rewrite <- Ht. exact Hs.
  - exact Hlead.
  - exact Htrail.
  - now apply trimEnd_keeps_start.
  - apply trimEnd_no_end.
Qed.

(** A text of white space only trims to the empty text. *)
Lemma trim_blank (s : string) : allWhiteSpace s = true -> trim s = "".
Proof.
  intros H. apply allWhiteSpace_iff in H. unfold trim.
  now rewrite (trimStart_blank s H).
Qed.


Lemma trimEnd_idempotent (t : string) : trimEnd (trimEnd t) = trimEnd t.
Proof.
  induction t as [|c rest IH]; [reflexivity|].
  rewrite trimEnd_cons. destruct (allWhiteSpace (String c rest)) eqn:Hall;
    [reflexivity|].
  rewrite trimEnd_cons, IH.
  destruct (allWhiteSpace (String c (trimEnd rest))) eqn:Hkept; [|reflexivity].
  exfalso. apply allWhiteSpace_iff in Hkept.
  destruct (trimEnd_split rest) as (trail & Hrest & Htrail).
  assert (Hblank : WhiteSpaceOnly (String c rest)).
  { replace (String c rest) with (String c (trimEnd rest) ++ trail).
    - now apply WhiteSpaceOnly_app.
    - simpl. now rewrite <- Hrest. }
  apply allWhiteSpace_iff in Hblank. congruence.
Qed.

Lemma trim_idempotent (s : string) : trim (trim s) = trim s.
Proof.
  unfold trim at 1.
  destruct (trim_spec s) as (_ & _ & _ & _ & _ & Hstart & _).
  rewrite (trimStart_fixed _ Hstart). unfold trim. apply trimEnd_idempotent.
Qed.

(** *** The case of ASCII letters *)







Lemma forallChars_app (p : ascii -> bool) (a b : string) :
  forallChars p (a ++ b) = forallChars p a && forallChars p b.
Proof.
  induction a as [|c a IH]; simpl; [reflexivity|].
  now rewrite IH, andb_assoc.
Qed.

(** *** [trimStart] and white space in front *)

Lemma trimStart_app_blank (lead t : string) :
  WhiteSpaceOnly lead -> trimStart (lead ++ t) = trimStart t.
Proof.
  induction 1 as [|w rest Hin Hrest IH]; [reflexivity|].
  rewrite string_app_assoc.
  now rewrite (trimStart_step _ _ (whiteSpaceAt_char w (rest ++ t) Hin)).
Qed.

Lemma WhiteSpaceOnly_nonempty (run : string) :
  WhiteSpaceOnly run -> run <> "" ->
  exists w rest, In w whiteSpaceChars /\ WhiteSpaceOnly rest /\ run = w ++ rest.
Proof. intros H Hne. destruct H; [contradiction | eauto]. Qed.

(** *** [replaceSpaceRuns] *)

Lemma replaceSpaceRunsFrom_enough (fuel : nat) :
  forall fuel' inRun s,
    String.length s <= fuel -> String.length s <= fuel' ->
    replaceSpaceRunsFrom fuel inRun s = replaceSpaceRunsFrom fuel' inRun s.
Proof.
  induction fuel as [|fuel IH]; intros fuel' inRun s Hlen Hlen'.
  - destruct s; [|simpl in Hlen; lia]. destruct fuel'; reflexivity.
  - destruct fuel' as [|fuel'].
    + destruct s; [reflexivity | simpl in Hlen'; lia].
    + cbn [replaceSpaceRunsFrom]. destruct s as [|c rest]; [reflexivity|].
      destruct (whiteSpaceAt (String c rest)) as [afterSpace|] eqn:Hs.
      * pose proof (whiteSpaceAt_shorter _ _ Hs).
        rewrite (IH fuel' true afterSpace) by lia. reflexivity.
      * simpl in Hlen, Hlen'. rewrite (IH fuel' false rest) by lia. reflexivity.
Qed.

Lemma replaceSpaceRuns_space (inRun : bool) (s afterSpace : string) :
  whiteSpaceAt s = Some afterSpace ->
  replaceSpaceRuns inRun s =
  if inRun then replaceSpaceRuns true afterSpace
  else String "_" (replaceSpaceRuns true afterSpace).
Proof.
  intros Hs. pose proof (whiteSpaceAt_shorter _ _ Hs) as Hshort.
  unfold replaceSpaceRuns. destruct s as [|c rest]; [discriminate|].
  cbn [String.length replaceSpaceRunsFrom]. rewrite Hs.
  simpl in Hshort.
  rewrite (replaceSpaceRunsFrom_enough (String.length rest)
             (String.length afterSpace) true afterSpace) by lia.
  reflexivity.
Qed.

Lemma replaceSpaceRuns_keep (inRun : bool) (c : ascii) (rest : string) :
  whiteSpaceAt (String c rest) = None ->
  replaceSpaceRuns inRun (String c rest) =
  String c (replaceSpaceRuns false rest).
Proof.
  intros Hs. unfold replaceSpaceRuns.
  cbn [String.length replaceSpaceRunsFrom]. now rewrite Hs.
Qed.

(** In a run, the white space in front is skipped. *)
Lemma replaceSpaceRuns_inRun (fuel : nat) :
  forall s, String.length s <= fuel ->
    replaceSpaceRuns true s = replaceSpaceRuns false (trimStart s).
Proof.
  induction fuel as [|fuel IH]; intros s Hlen.
  - destruct s; [reflexivity | simpl in Hlen; lia].
  - destruct (whiteSpaceAt s) as [afterSpace|] eqn:Hs.
    + pose proof (whiteSpaceAt_shorter _ _ Hs).
      rewrite (replaceSpaceRuns_space true s afterSpace Hs).
      rewrite (trimStart_step s afterSpace Hs). apply IH. lia.
    + rewrite (trimStart_fixed s) by now apply whiteSpaceAt_none.
      destruct s as [|c rest]; [reflexivity|].
      now rewrite !replaceSpaceRuns_keep.
Qed.

(** [replaceSpaceRuns] answers the collapsed text of the vocabulary. *)
Lemma replaceSpaceRuns_collapses (fuel : nat) :
  forall s, String.length s <= fuel ->
    CollapsesRuns s (replaceSpaceRuns false s).
Proof.
  induction fuel as [|fuel IH]; intros s Hlen.
  - destruct s; [constructor | simpl in Hlen; lia].
  - destruct (whiteSpaceAt s) as [afterSpace|] eqn:Hs.
    + pose proof (whiteSpaceAt_shorter _ _ Hs) as Hshort.
      rewrite (replaceSpaceRuns_space false s afterSpace Hs).
      rewrite (replaceSpaceRuns_inRun (String.length afterSpace)) by lia.
      destruct (trimStart_spec afterSpace) as (lead & Hafter & Hlead & Hstart).
      apply whiteSpaceAt_sound in Hs as (w & Hin & ->).
      assert (Hsplit : w ++ afterSpace = (w ++ lead) ++ trimStart afterSpace).
      { rewrite string_app_assoc. now rewrite <- Hafter. }
      rewrite Hsplit. constructor.
      * now constructor.
      * pose proof (whiteSpaceChar_length w Hin).
        intros Hempty. apply (f_equal String.length) in Hempty.
        rewrite string_app_length in Hempty. simpl in Hempty. lia.
      * exact Hstart.
      * apply IH.
        apply (f_equal String.length) in Hafter.
        rewrite string_app_length in Hafter. lia.
    + destruct s as [|c rest]; [constructor|].
      rewrite (replaceSpaceRuns_keep false c rest Hs). constructor.
      * now apply whiteSpaceAt_none.
      * apply IH. simpl in Hlen. lia.
Qed.

(** The collapsed text is the one [replaceSpaceRuns] answers. *)
Lemma CollapsesRuns_unique (s out : string) :
  CollapsesRuns s out -> out = replaceSpaceRuns false s.
Proof.
  induction 1 as [|c rest out Hstart _ IH|run rest out Hrun Hne Hstart _ IH].
  - reflexivity.
  - apply whiteSpaceAt_none in Hstart.
    now rewrite (replaceSpaceRuns_keep false c rest Hstart), IH.
  - destruct (WhiteSpaceOnly_nonempty run Hrun Hne) as (w & more & Hin & Hmore & ->).
    rewrite string_app_assoc.
    rewrite (replaceSpaceRuns_space false _ _
               (whiteSpaceAt_char w (more ++ rest) Hin)).
    rewrite (replaceSpaceRuns_inRun (String.length (more ++ rest)))
      by apply le_n.
    rewrite (trimStart_app_blank more rest Hmore).
    rewrite (trimStart_fixed rest Hstart). now rewrite IH.
Qed.

(** After its first byte a white-space character holds continuation
    bytes only, and none starts with an underscore. *)
Lemma whiteSpaceChars_shape :
  forallb (fun w =>
    match w with
    | EmptyString => false
    | String c more =>
        forallChars isContinuation more
        && negb (isContinuation c) && negb (Ascii.eqb c "_")
    end) whiteSpaceChars = true.
Proof. vm_compute. reflexivity. Qed.

Lemma whiteSpaceChar_shape (w : string) :
  In w whiteSpaceChars ->
  exists c more,
    w = String c more /\ forallChars isContinuation more = true
    /\ c <> "_"%char /\ isContinuation c = false.
Proof.
  intros Hin. pose proof whiteSpaceChars_shape as Hshape.
  rewrite forallb_forall in Hshape. specialize (Hshape w Hin).
  destruct w as [|c more]; [discriminate|].
  apply andb_true_iff in Hshape as [Hshape Hc].
  apply andb_true_iff in Hshape as [Hmore Hlead].
  exists c, more. repeat split; [exact Hmore | | now apply negb_true_iff].
  intros ->. discriminate.
Qed.

(** What the collapsed text starts with in continuation bytes, the text
    starts with. *)
Lemma CollapsesRuns_prefix (s out : string) :
  CollapsesRuns s out ->
  forall p q, out = p ++ q -> forallChars isContinuation p = true ->
    exists q', s = p ++ q'.
Proof.
  induction 1 as [|c rest out Hstart _ IH|run rest out Hrun Hne Hstart _ IH];
    intros p q Hout Hp.
  - destruct p; [exists ""; reflexivity | discriminate].
  - destruct p as [|x p]; [eexists; reflexivity|].
    simpl in Hout, Hp. inversion Hout; subst x.
    apply andb_true_iff in Hp as [_ Hp].
    destruct (IH p q H1 Hp) as (q' & ->). exists q'. reflexivity.
  - destruct p as [|x p]; [eexists; reflexivity|].
    simpl in Hout, Hp. inversion Hout; subst x. discriminate.
Qed.

Lemma CollapsesRuns_no_space (s out : string) :
  CollapsesRuns s out -> ~ ContainsWhiteSpace out.
Proof.
  intros Hc (before & w & after & Hin & Hout). revert before Hout.
  induction Hc as [|c rest out Hstart Hc IH|run rest out Hrun Hne Hstart Hc IH];
    intros before Hout.
  - pose proof (whiteSpaceChar_length w Hin).
    apply (f_equal String.length) in Hout.
    rewrite !string_app_length in Hout. simpl in Hout. lia.
  - destruct before as [|x before]; simpl in Hout.
    + destruct (whiteSpaceChar_shape w Hin) as (c' & more & -> & Hmore & _).
      simpl in Hout. inversion Hout; subst c'.
      destruct (CollapsesRuns_prefix rest out Hc more after H1 Hmore)
        as (q' & ->).
      apply Hstart. exists (String c more), q'. auto.
    + inversion Hout. eauto.
  - destruct before as [|x before]; simpl in Hout.
    + destruct (whiteSpaceChar_shape w Hin) as (c' & more & -> & _ & Hc' & _).
      simpl in Hout. inversion Hout. congruence.
    + inversion Hout. eauto.
Qed.

Lemma replaceSpaceRuns_fixed (s : string) :
  ~ ContainsWhiteSpace s -> replaceSpaceRuns false s = s.
Proof.
  induction s as [|c rest IH]; intros Hnone; [reflexivity|].
  rewrite replaceSpaceRuns_keep.
  - f_equal. apply IH. intros (before & w & after & Hin & ->).
    apply Hnone. exists (String c before), w, after. auto.
  - apply whiteSpaceAt_none. intros (w & more & Hin & Hw).
    apply Hnone. exists "", w, more. auto.
Qed.

(** *** White space behind *)

Lemma string_app_split (a : string) :
  forall b c d, a ++ b = c ++ d ->
    (exists x, c = a ++ x /\ b = x ++ d)
    \/ (exists x, x <> "" /\ a = c ++ x /\ d = x ++ b).
Proof.
  induction a as [|k a IH]; intros b c d H; simpl in H.
  - left. exists c. auto.
  - destruct c as [|k' c]; simpl in H.
    + right. exists (String k a).
      split; [discriminate|]. split; [reflexivity | symmetry; exact H].
    + inversion H; subst k'.
      destruct (IH b c d H2) as [(x & -> & ->) | (x & Hx & -> & ->)].
      * left. exists x. auto.
      * right. exists x. auto.
Qed.

Lemma string_app_inv_head (a b c : string) : a ++ b = a ++ c -> b = c.
Proof. induction a as [|k a IH]; simpl; intros H; [exact H|]. inversion H; auto. Qed.

Lemma WhiteSpaceOnly_head (trail : string) :
  WhiteSpaceOnly trail -> trail <> "" ->
  exists c rest, trail = String c rest /\ isContinuation c = false.
Proof.
  intros H Hne.
  destruct (WhiteSpaceOnly_nonempty trail H Hne) as (w & more & Hin & _ & ->).
  destruct (whiteSpaceChar_shape w Hin) as (c & bytes & -> & _ & _ & Hc).
  exists c, (bytes ++ more). auto.
Qed.

(** Where a text that does not start inside a character is followed by
    white space only, a white-space character at its start lies within
    it. *)
Lemma whiteSpaceChar_within (w rest a trail : string) :
  In w whiteSpaceChars -> w ++ rest = a ++ trail ->
  WhiteSpaceOnly trail -> a <> "" ->
  exists a', a = w ++ a' /\ rest = a' ++ trail.
Proof.
  intros Hin Heq Htrail Ha.
  destruct (string_app_split w rest a trail Heq)
    as [(x & -> & ->) | (x & Hx & Hw & ->)]; [eauto|].
  exfalso.
  destruct (whiteSpaceChar_shape w Hin) as (c & bytes & -> & Hbytes & _ & _).
  destruct a as [|k a]; [contradiction|]. simpl in Hw. inversion Hw; subst.
  rewrite forallChars_app in Hbytes. apply andb_true_iff in Hbytes as [_ Hx'].
  destruct x as [|x0 x]; [contradiction|]. simpl in Hx'.
  apply andb_true_iff in Hx' as [Hx0 _].
  destruct (WhiteSpaceOnly_head (String x0 x ++ rest) Htrail ltac:(discriminate))
    as (c' & rest' & Hc' & Hlead).
  simpl in Hc'. inversion Hc'; subst. congruence.
Qed.

Lemma WhiteSpaceOnly_cancel (a trail : string) :
  WhiteSpaceOnly (a ++ trail) -> WhiteSpaceOnly trail -> WhiteSpaceOnly a.
Proof.
  intros H Htrail. remember (a ++ trail) as u eqn:Hu. revert a Hu.
  induction H as [|w rest Hin Hrest IH]; intros a Hu.
  - destruct a; [constructor | discriminate].
  - destruct a as [|k a]; [constructor|].
    destruct (whiteSpaceChar_within w rest (String k a) trail Hin Hu Htrail
                ltac:(discriminate)) as (a' & -> & ->).
    constructor; [exact Hin | now apply IH].
Qed.

Lemma allWhiteSpace_app_blank (a trail : string) :
  WhiteSpaceOnly trail -> allWhiteSpace (a ++ trail) = allWhiteSpace a.
Proof.
  intros Htrail.
  destruct (allWhiteSpace a) eqn:Ha.
  - apply allWhiteSpace_iff. apply allWhiteSpace_iff in Ha.
    now apply WhiteSpaceOnly_app.
  - destruct (allWhiteSpace (a ++ trail)) eqn:Hat; [|reflexivity].
    apply allWhiteSpace_iff in Hat.
    apply (WhiteSpaceOnly_cancel a trail Hat) in Htrail.
    apply allWhiteSpace_iff in Htrail. congruence.
Qed.

Lemma trimEnd_blank (trail : string) : WhiteSpaceOnly trail -> trimEnd trail = "".
Proof.
  intros H. destruct trail as [|c rest]; [reflexivity|].
  rewrite trimEnd_cons. apply allWhiteSpace_iff in H. now rewrite H.
Qed.

Lemma trimEnd_app_blank (t trail : string) :
  WhiteSpaceOnly trail -> trimEnd (t ++ trail) = trimEnd t.
Proof.
  intros Htrail. induction t as [|c t IH]; [now apply trimEnd_blank|].
  change (String c t ++ trail) with (String c (t ++ trail)).
  rewrite !trimEnd_cons, IH.
  change (String c (t ++ trail)) with (String c t ++ trail).
  now rewrite (allWhiteSpace_app_blank (String c t) trail Htrail).
Qed.

Lemma StartsWithWhiteSpace_app (t trail : string) :
  ~ StartsWithWhiteSpace t -> t <> "" -> WhiteSpaceOnly trail ->
  ~ StartsWithWhiteSpace (t ++ trail).
Proof.
  intros Hstart Ht Htrail (w & rest & Hin & Heq). apply Hstart.
  symmetry in Heq.
  destruct (whiteSpaceChar_within w rest t trail Hin Heq Htrail Ht)
    as (a' & -> & _).
  exists w, a'. auto.
Qed.

(** White space put around a text does not change what [trim] answers. *)
Lemma trim_padded (lead s trail : string) :
  WhiteSpaceOnly lead -> WhiteSpaceOnly trail ->
  trim (lead ++ s ++ trail) = trim s.
Proof.
  intros Hlead Htrail. unfold trim.
  rewrite (trimStart_app_blank lead (s ++ trail) Hlead).
  destruct (trimStart_spec s) as (front & Hs & Hfront & Hstart).
  rewrite Hs at 1. rewrite string_app_assoc.
  rewrite (trimStart_app_blank front _ Hfront).
  destruct (trimStart s) as [|c t] eqn:Ht.
  - simpl. now rewrite (trimStart_blank trail Htrail).
  - rewrite trimStart_fixed.
    + now apply trimEnd_app_blank.
    + apply StartsWithWhiteSpace_app; [exact Hstart | discriminate | exact Htrail].
Qed.

(** *** [replaceNonDigits] and [encodeURIComponent] *)

Lemma replaceNonDigits_digits (s : string) :
  forallChars isDigit (replaceNonDigits s) = true.
Proof.
  induction s as [|c s IH]; simpl; [reflexivity|].
  destruct (isDigit c) eqn:Hc; simpl; [now rewrite Hc|]; assumption.
Qed.

Lemma replaceNonDigits_fixed (s : string) :
  forallChars isDigit s = true -> replaceNonDigits s = s.
Proof.
  induction s as [|c s IH]; simpl; [reflexivity|].
  intros H. apply andb_true_iff in H as [Hc Hs]. rewrite Hc. now rewrite IH.
Qed.

Lemma encodeURIComponent_char (c : ascii) :
  forallChars isUrlSafe (encodeURIComponent (String c "")) = true.
Proof. destruct c as [[] [] [] [] [] [] [] []]; reflexivity. Qed.

Lemma encodeURIComponent_cons (c : ascii) (s : string) :
  encodeURIComponent (String c s) =
  encodeURIComponent (String c "") ++ encodeURIComponent s.
Proof. simpl. destruct (isUriUnreserved c); reflexivity. Qed.

Lemma encodeURIComponent_safe (s : string) :
  forallChars isUrlSafe (encodeURIComponent s) = true.
Proof.
  induction s as [|c s IH]; [reflexivity|].
  rewrite encodeURIComponent_cons, forallChars_app, encodeURIComponent_char.
  exact IH.
Qed.

Lemma encodeURIComponent_unreserved (s : string) :
  forallChars isUriUnreserved s = true -> encodeURIComponent s = s.
Proof.
  induction s as [|c s IH]; simpl; [reflexivity|].
  intros H. apply andb_true_iff in H as [Hc Hs]. rewrite Hc. now rewrite IH.
Qed.

(** *** The trimmed text is one *)





End StringFacts.

(* ================================================================== *)
(** ** Lists: what [filter] selects                                    *)
(* ================================================================== *)

Section ListFacts.

Context {A : Type}.

Lemma Selects_filter (P : A -> Prop) (p : A -> bool) (l : list A) :
  (forall x, In x l -> (p x = true <-> P x)) -> Selects P l (filter p l).
Proof.
  induction l as [|x l IH]; intros Hp; simpl.
  - constructor.
  - assert (Hl : Selects P l (filter p l))
      by (apply IH; intros y Hy; apply Hp; now right).
    destruct (p x) eqn:Hx.
    + apply Selects_keep; [apply Hp; [now left | assumption] | assumption].
    + apply Selects_drop; [| assumption].
      intros HP. apply Hp in HP; [congruence | now left].
Qed.

Lemma Selects_all (l : list A) : Selects (fun _ => True) l l.
Proof. induction l; constructor; auto. Qed.

Lemma Selects_ext (P Q : A -> Prop) (l r : list A) :
  (forall x, P x <-> Q x) -> Selects P l r -> Selects Q l r.
Proof.
  intros HPQ H; induction H; constructor; auto.
  - now apply HPQ.
  - now rewrite <- HPQ.
Qed.

Lemma Selects_compose (P Q : A -> Prop) (l r r' : list A) :
  Selects P l r -> Selects Q r r' -> Selects (fun x => P x /\ Q x) l r'.
Proof.
  intros H; revert r'; induction H; intros r' H'.
  - inversion H'; subst; constructor.
  - inversion H'; subst.
    + apply Selects_keep; auto.
    + apply Selects_drop; [tauto | auto].
  - apply Selects_drop; [tauto | auto].
Qed.

Lemma Selects_functional (P : A -> Prop) (l r r' : list A) :
  Selects P l r -> Selects P l r' -> r = r'.
Proof.
  intros H; revert r'; induction H; intros r' H'; inversion H'; subst;
    try reflexivity; try contradiction; auto.
  f_equal; auto.
Qed.

Lemma Selects_In (P : A -> Prop) (l r : list A) :
  Selects P l r -> forall x, In x r <-> In x l /\ P x.
Proof.
  induction 1 as [|y l r Hy H IH|y l r Hy H IH]; intros x; simpl.
  - tauto.
  - rewrite IH. split.
    + intros [->|[Hin HP]]; auto.
    + intros [[->|Hin] HP]; auto.
  - rewrite IH. split.
    + intros [Hin HP]; auto.
    + intros [[->|Hin] HP]; [contradiction | auto].
Qed.

Lemma Selects_Subsequence (P : A -> Prop) (l r : list A) :
  Selects P l r -> Subsequence r l.
Proof. induction 1; constructor; assumption. Qed.

Lemma Selects_none_dropped (P : A -> Prop) (l r : list A) :
  Selects P l r -> (forall x, In x l -> P x) -> r = l.
Proof.
  induction 1 as [|y l r Hy H IH|y l r Hy H IH]; intros Hall.
  - reflexivity.
  - f_equal. apply IH. intros x Hx. apply Hall. now right.
  - exfalso. apply Hy, Hall. now left.
Qed.

Lemma filter_idempotent (p : A -> bool) (l : list A) :
  filter p (filter p l) = filter p l.
Proof.
  induction l as [|x l IH]; simpl; [reflexivity|].
  destruct (p x) eqn:Hx; simpl; [rewrite Hx, IH|]; auto.
Qed.

Lemma filter_commute (p q : A -> bool) (l : list A) :
  filter p (filter q l) = filter q (filter p l).
Proof.
  induction l as [|x l IH]; simpl; [reflexivity|].
  destruct (q x) eqn:Hq, (p x) eqn:Hp; simpl;
    rewrite ?Hq, ?Hp, IH; reflexivity.
Qed.

End ListFacts.

(* ================================================================== *)
(** ** Running the handlers                                            *)
(* ================================================================== *)

Section Running.

Context {RT : JsRuntime}.

Lemma docLines_app (d1 d2 : Doc) :
  docLines (d1 ++ d2) = docLines d1 ++ docLines d2.
Proof.
  induction d1 as [|[size|t x y] d1 IH]; simpl; [reflexivity | assumption |].
  now rewrite IH.
Qed.

Lemma docLines_serviceOps (services : list ServiceItem) (index : nat) (y : Z) :
  docLines (serviceOps services index y) =
  numberedServiceLines (index + 1) services.
Proof.
  revert index y; induction services as [|service rest IH]; intros index y.
  - reflexivity.
  - simpl. rewrite IH. now rewrite (Nat.add_1_r (S index)), Nat.add_1_r.
Qed.

(** The texts of a whole document: the lines of the specification with
    the heading of the service list between the header and the
    services. *)
Lemma docLines_documentOps (invoice : Invoice) (t : Z) :
  docLines (documentOps invoice t) =
  headerLines invoice (formatPPP t) ++ ["Services:"%string] ++
  numberedServiceLines 1 (services invoice) ++ [totalLine invoice].
Proof.
  unfold documentOps. rewrite !docLines_app, docLines_serviceOps.
  reflexivity.
Qed.

Lemma textServices_outcome (services : list ServiceItem) :
  forall (doc : Doc) (index : nat) (y : Z) (w : World),
    textServices doc services index y w =
    mkOutcome (map JsPDF_call (serviceOps services index y)) w
      (Normal (doc ++ serviceOps services index y,
               (y + 8 * Z.of_nat (List.length services))%Z)).
Proof.
  induction services as [|service rest IH]; intros doc index y w.
  - simpl. unfold ret. rewrite app_nil_r. do 3 f_equal. lia.
  - cbn [textServices]. run_handler. rewrite IH.
    rewrite <- app_assoc. cbn [app serviceOps map List.length].
    unfold serviceLine. do 3 f_equal. lia.
Qed.

(** [generatePdf] on an invoice whose date parses. *)
Lemma generatePdf_valid (invoice : Invoice) (t : Z) (w : World) :
  parseInvoiceDate (date invoice) = ValidDate t ->
  generatePdf invoice w =
  mkOutcome (JsPDF_new :: map JsPDF_call (documentOps invoice t)) w
    (Normal (documentOps invoice t)).
Proof.
  intros Hdate. unfold generatePdf, format_PPP. rewrite Hdate.
  run_handler. unfold bind at 1. rewrite textServices_outcome. run_handler.
  unfold documentOps, totalLine. cbn [app map].
  rewrite map_app. reflexivity.
Qed.

(** [generatePdf] on an invoice whose date does not parse: [format]
    throws after the first line is drawn. *)
Lemma generatePdf_invalid (invoice : Invoice) (w : World) :
  parseInvoiceDate (date invoice) = InvalidDate ->
  generatePdf invoice w =
  mkOutcome
    [JsPDF_new; JsPDF_call (SetFontSize 16);
     JsPDF_call (Text ("Invoice #" ++ id invoice) 14 20);
     JsPDF_call (SetFontSize 12)] w
    (Throw (mkError "RangeError" "Invalid time value")).
Proof.
  intros Hdate. unfold generatePdf, format_PPP. rewrite Hdate.
  run_handler. reflexivity.
Qed.

Lemma generatePdf_world (invoice : Invoice) (w : World) :
  world (generatePdf invoice w) = w.
Proof.
  destruct (parseInvoiceDate (date invoice)) as [t|] eqn:Hdate.
  - now rewrite (generatePdf_valid invoice t w Hdate).
  - now rewrite (generatePdf_invalid invoice w Hdate).
Qed.

Lemma generatePdf_first_call (invoice : Invoice) (w : World) :
  exists rest, trace (generatePdf invoice w) = JsPDF_new :: rest.
Proof.
  destruct (parseInvoiceDate (date invoice)) as [t|] eqn:Hdate.
  - rewrite (generatePdf_valid invoice t w Hdate). eexists; reflexivity.
  - rewrite (generatePdf_invalid invoice w Hdate). eexists; reflexivity.
Qed.

Lemma Frames_bind {A B : Type} (m : M A) (k : A -> M B) :
  Frames m -> (forall a, Frames (k a)) -> Frames (bind m k).
Proof.
  intros Hm Hk w. unfold bind. specialize (Hm w).
  destruct (m w) as [tr w1 [a|e]]; cbn [world] in Hm; subst w1.
  - specialize (Hk a w). destruct (k a w) as [tr' w2 c]. exact Hk.
  - reflexivity.
Qed.

Lemma Frames_emit (e : Event) : Frames (emit e).
Proof. intros w; reflexivity. Qed.

Lemma Frames_ret {A : Type} (a : A) : Frames (ret a).
Proof. intros w; reflexivity. Qed.

Lemma Frames_getWorld : Frames getWorld.
Proof. intros w; reflexivity. Qed.

Lemma Frames_generatePdf (invoice : Invoice) : Frames (generatePdf invoice).
Proof. intros w; apply generatePdf_world. Qed.

Lemma Frames_forEach {A : Type} (l : list A) (callback : A -> M unit) :
  (forall x, Frames (callback x)) -> Frames (forEach l callback).
Proof.
  intros Hcb; induction l as [|x l IH]; cbn [forEach].
  - apply Frames_ret.
  - apply Frames_bind; [apply Hcb | intros _; exact IH].
Qed.

Lemma Frames_try_catch {A : Type} (body : M A) (handler : JsError -> M A) :
  Frames body -> (forall e, Frames (handler e)) ->
  Frames (try_catch body handler).
Proof.
  intros Hb Hh w. unfold try_catch. specialize (Hb w).
  destruct (body w) as [tr w1 [a|e]]; cbn [world] in Hb; subst w1.
  - reflexivity.
  - specialize (Hh e w). destruct (handler e w) as [tr' w2 c]. exact Hh.
Qed.

End Running.

Create HintDb frames.

#[global] Hint Resolve Frames_bind Frames_emit Frames_ret Frames_getWorld
  Frames_generatePdf Frames_forEach Frames_try_catch : frames.

(* ================================================================== *)
(** ** The filter                                                      *)
(* ================================================================== *)

Section FilterFacts.

Context {RT : JsRuntime}.

Lemma matchesVehicle_spec (s : string) (invoice : Invoice) :
  matchesVehicle s invoice = true <->
  ContainsIgnoringCase (vehicleNumber invoice) (trim s).
Proof. unfold matchesVehicle, ContainsIgnoringCase. apply includes_occurs. Qed.

Lemma withinRange_spec (a b : Z) (invoice : Invoice) :
  withinRange (ValidDate a) (ValidDate b) invoice = true <->
  DateCriterion a b invoice.
Proof.
  unfold withinRange, DateCriterion.
  destruct (parseInvoiceDate (date invoice)) as [d|]; simpl.
  - rewrite andb_true_iff, !orb_true_iff, !Z.ltb_lt, !Z.eqb_eq. split.
    + intros H. exists d. split; [reflexivity | lia].
    + intros (d' & Hd & Hab). inversion Hd; subst d'. lia.
  - split; [discriminate | intros (d & Hd & _); discriminate].
Qed.

(** An Invalid Date is within no range, whatever the bounds. *)
Lemma withinRange_invalid (rangeFrom rangeTo : Date) (invoice : Invoice) :
  parseInvoiceDate (date invoice) = InvalidDate ->
  withinRange rangeFrom rangeTo invoice = false.
Proof. unfold withinRange. intros ->. reflexivity. Qed.

Lemma parseInvoiceDate_invalid (s : string) :
  Date_new s = InvalidDate -> parseISO s = InvalidDate ->
  parseInvoiceDate s = InvalidDate.
Proof. unfold parseInvoiceDate. intros -> ->. reflexivity. Qed.

(** The two steps of the filter, one after the other. *)
Lemma filterInvoices_steps (C : list Invoice) (s : string) (r : DateRange) :
  filterInvoices C s r =
  let kept := if isEmpty (trim s) then C else filter (matchesVehicle s) C in
  match from r, to r with
  | Some rangeFrom, Some rangeTo => filter (withinRange rangeFrom rangeTo) kept
  | _, _ => kept
  end.
Proof. unfold filterInvoices. destruct (isEmpty (trim s)); reflexivity. Qed.

Lemma vehicle_step_Selects (C : list Invoice) (s : string) :
  Selects (VehicleCriterion s) C
    (if isEmpty (trim s) then C else filter (matchesVehicle s) C).
Proof.
  unfold VehicleCriterion.
  destruct (isEmpty (trim s)) eqn:He.
  - apply isEmpty_true in He.
    apply Selects_ext with (P := fun _ => True); [tauto | apply Selects_all].
  - apply isEmpty_false in He.
    apply Selects_ext
      with (P := fun i => ContainsIgnoringCase (vehicleNumber i) (trim s));
      [tauto |].
    apply Selects_filter. intros x _. apply matchesVehicle_spec.
Qed.

Lemma filterInvoices_Selects (C : list Invoice) (s : string) (a b : Z) :
  Selects (fun i => VehicleCriterion s i /\ DateCriterion a b i) C
    (filterInvoices C s
       (mkDateRange (Some (ValidDate a)) (Some (ValidDate b)))).
Proof.
  rewrite filterInvoices_steps. cbn [from to].
  eapply Selects_compose; [apply vehicle_step_Selects |].
  apply Selects_filter. intros x _. apply withinRange_spec.
Qed.

End FilterFacts.

(* ================================================================== *)
(** ** Export and share                                                *)
(* ================================================================== *)

Section ShareFacts.

Context {RT : JsRuntime}.

Lemma Frames_downloadInvoice (invoice : Invoice) :
  Frames (downloadInvoice invoice).
Proof. unfold downloadInvoice, doc_save. auto with frames. Qed.

Lemma Frames_saveAllInvoicesAsPDF : Frames saveAllInvoicesAsPDF.
Proof.
  unfold saveAllInvoicesAsPDF, toast_success, doc_save.
  apply Frames_bind; [apply Frames_getWorld | intros w].
  apply Frames_bind; [| intros _; apply Frames_emit].
  apply Frames_forEach. intros invoice. auto with frames.
Qed.

Lemma shareAttempt_invalid (nav : Navigator) (invoice : Invoice) (w : World) :
  parseInvoiceDate (date invoice) = InvalidDate ->
  shareAttempt nav invoice w =
  mkOutcome
    [JsPDF_new; JsPDF_call (SetFontSize 16);
     JsPDF_call (Text ("Invoice #" ++ id invoice) 14 20);
     JsPDF_call (SetFontSize 12)] w
    (Throw (mkError "RangeError" "Invalid time value")).
Proof.
  intros Hdate. unfold shareAttempt. unfold bind at 1.
  rewrite (generatePdf_invalid invoice w Hdate). reflexivity.
Qed.

Lemma shareAttempt_fallback (nav : Navigator) (invoice : Invoice) (t : Z)
    (w : World) :
  parseInvoiceDate (date invoice) = ValidDate t ->
  share nav = None ->
  shareAttempt nav invoice w =
  mkOutcome
    (JsPDF_new :: map JsPDF_call (documentOps invoice t) ++
     [JsPDF_output_blob (documentOps invoice t);
      Window_open
        ("https://wa.me/" ++ replaceNonDigits (customerPhone invoice) ++
         "?text=" ++ shareMessage invoice) "_blank"])
    w (Normal tt).
Proof.
  intros Hdate Hshare. unfold shareAttempt. unfold bind at 1.
  rewrite (generatePdf_valid invoice t w Hdate), Hshare.
  run_handler. reflexivity.
Qed.

Lemma shareAttempt_native (nav : Navigator) (invoice : Invoice) (t : Z)
    (shareFn : ShareData -> Completion unit) (w : World) :
  parseInvoiceDate (date invoice) = ValidDate t ->
  share nav = Some shareFn ->
  shareAttempt nav invoice w =
  mkOutcome
    (JsPDF_new :: map JsPDF_call (documentOps invoice t) ++
     [JsPDF_output_blob (documentOps invoice t);
      Navigator_share (nativeShareData invoice (documentOps invoice t))])
    w
    (match shareFn (nativeShareData invoice (documentOps invoice t)) with
     | Normal _ => Normal tt
     | Throw e => Throw e
     end).
Proof.
  intros Hdate Hshare. unfold shareAttempt. unfold bind at 1.
  rewrite (generatePdf_valid invoice t w Hdate), Hshare.
  run_handler. unfold navigator_share, nativeShareData. run_handler.
  destruct (shareFn _) as [[]|e]; reflexivity.
Qed.

Lemma no_toast_among_calls (ops : list DocOp) :
  existsb isMissingPhoneToast (map JsPDF_call ops) = false.
Proof. induction ops as [|op ops IH]; simpl; auto. Qed.

Lemma shareFailed_outcome (error : JsError) (w : World) :
  shareFailed error w =
  mkOutcome
    (Console_error "Sharing failed:" error ::
     if negb (name error =? "AbortError")%string
     then [Toast_error "Sharing failed. Please try again."] else [])
    w (Normal tt).
Proof.
  unfold shareFailed. run_handler.
  destruct (negb (name error =? "AbortError")%string); reflexivity.
Qed.

(** Past the validation, no path of [handleShare] shows the
    notification of the validation. *)
Lemma shareAttempt_no_missing_phone_toast (nav : Navigator)
    (invoice : Invoice) (w : World) :
  existsb isMissingPhoneToast
    (trace (try_catch (shareAttempt nav invoice) shareFailed w)) = false.
Proof.
  unfold try_catch.
  destruct (parseInvoiceDate (date invoice)) as [t|] eqn:Hdate.
  - destruct (share nav) as [shareFn|] eqn:Hshare.
    + rewrite (shareAttempt_native nav invoice t shareFn w Hdate Hshare).
      destruct (shareFn _) as [[]|e].
      * cbn [trace existsb isMissingPhoneToast orb].
        now rewrite existsb_app, no_toast_among_calls.
      * rewrite shareFailed_outcome. cbn [trace app existsb isMissingPhoneToast orb].
        rewrite !existsb_app, no_toast_among_calls. cbn [existsb isMissingPhoneToast orb].
        destruct (negb (name e =? "AbortError")%string); reflexivity.
    + rewrite (shareAttempt_fallback nav invoice t w Hdate Hshare).
      cbn [trace existsb isMissingPhoneToast orb].
      now rewrite existsb_app, no_toast_among_calls.
  - rewrite (shareAttempt_invalid nav invoice w Hdate), shareFailed_outcome.
    reflexivity.
Qed.

End ShareFacts.

(* ================================================================== *)
(** ** The controller around the filter                                *)
(* ================================================================== *)

Section ControllerFacts.

Context {RT : JsRuntime}.

(** After [resetFilters] and the effect it triggers, the view is the
    master collection, whatever the criteria were. *)
Lemma resetFilters_view (w : World) :
  filteredInvoices (world (bind resetFilters (fun _ => filterEffect) w)) =
  invoices w
  /\ invoices (world (bind resetFilters (fun _ => filterEffect) w)) =
     invoices w.
Proof. unfold resetFilters, filterEffect. run_handler. split; reflexivity. Qed.

(** A confirmed delete shows the remaining invoices that pass the
    criteria in force. *)
Lemma deleteTransition_view (w : World) (X : string) :
  filteredInvoices (world (deleteTransition X w)) =
  filterInvoices (invoices (world (handleDelete X w)))
    (searchVehicle w) (dateRange w).
Proof.
  unfold deleteTransition, handleDelete, filterEffect. run_handler.
  reflexivity.
Qed.

(** On activation both collections are what the store holds, the empty
    collection when the key is absent. *)
Lemma loadEffect_view (w : World) :
  invoices (world (loadEffect w)) =
  match localStorage_invoices w with Some stored => stored | None => [] end
  /\ filteredInvoices (world (loadEffect w)) = invoices (world (loadEffect w)).
Proof.
  unfold loadEffect, localStorage_getItem_invoices. run_handler.
  split; reflexivity.
Qed.

(** The "Delete" button of the dialog does nothing while no id is
    pending. *)
Lemma confirmDelete_nothing_pending (w : World) :
  invoiceToDelete w = None ->
  confirmDelete w = mkOutcome [] w (Normal tt).
Proof. intros H. unfold confirmDelete. run_handler. now rewrite H. Qed.

End ControllerFacts.

(* ================================================================== *)
(** ** The properties of the specification                             *)
(* ================================================================== *)

Section Properties.

Context {RT : JsRuntime}.

(** C1.  Delete: for every world [w], with master collection
    [invoices w], and every id [X], [handleDelete X] completes normally
    and leaves a master collection that is exactly the invoices whose id
    is not [X], each as it was and in the original order; none of them
    has the id [X]; the collection is a subsequence of the old one; when
    no invoice has the id [X] it equals the old one.  The same collection
    is displayed and written to the store, and the success notification
    fires, once, whether or not the id was present. *)
Theorem handleDelete_removes_id (w : World) (X : string) :
  Selects (fun invoice => id invoice <> X)
    (invoices w) (invoices (world (handleDelete X w)))
  /\ (forall invoice,
        In invoice (invoices (world (handleDelete X w))) -> id invoice <> X)
  /\ Subsequence (invoices (world (handleDelete X w))) (invoices w)
  /\ ((forall invoice, In invoice (invoices w) -> id invoice <> X) ->
      invoices (world (handleDelete X w)) = invoices w)
  /\ filteredInvoices (world (handleDelete X w)) =
     invoices (world (handleDelete X w))
  /\ localStorage_invoices (world (handleDelete X w)) =
     Some (invoices (world (handleDelete X w)))
  /\ completion (handleDelete X w) = Normal tt
  /\ trace (handleDelete X w) =
     [LocalStorage_setItem "invoices" (invoices (world (handleDelete X w)));
      Toast_success "Invoice deleted successfully"].
Proof.
  assert (Hsel : Selects (fun invoice => id invoice <> X) (invoices w)
                   (invoices (world (handleDelete X w)))).
  { unfold handleDelete. run_handler. apply Selects_filter.
    intros x _. rewrite negb_true_iff. apply String.eqb_neq. }
  split; [exact Hsel|].
  split; [intros i Hi; apply (Selects_In _ _ _ Hsel) in Hi; tauto|].
  split; [exact (Selects_Subsequence _ _ _ Hsel)|].
  split; [exact (Selects_none_dropped _ _ _ Hsel)|].
  unfold handleDelete. run_handler. repeat split.
Qed.


(** C3.  For every collection [C], search text [s] and range from [a] to
    [b] with [a <= b], both bounds present: every invoice of the filtered
    view has a parsed date [d] with [a <= d <= b]; an invoice of [C] that
    passes the vehicle criterion and is dated exactly [a] or exactly [b]
    is in the view; and the view is the stable subsequence of exactly
    the invoices that pass the vehicle criterion and the date
    criterion. *)
Theorem filter_by_date_range (C : list Invoice) (s : string) (a b : Z) :
  (a <= b)%Z ->
  (forall invoice,
     In invoice (filterInvoices C s
                   (mkDateRange (Some (ValidDate a)) (Some (ValidDate b)))) ->
     exists d, parseInvoiceDate (date invoice) = ValidDate d /\ (a <= d <= b)%Z)
  /\ (forall invoice,
        In invoice C -> VehicleCriterion s invoice ->
        parseInvoiceDate (date invoice) = ValidDate a \/
        parseInvoiceDate (date invoice) = ValidDate b ->
        In invoice (filterInvoices C s
                      (mkDateRange (Some (ValidDate a)) (Some (ValidDate b)))))
  /\ Selects
       (fun invoice => VehicleCriterion s invoice /\ DateCriterion a b invoice)
       C (filterInvoices C s
            (mkDateRange (Some (ValidDate a)) (Some (ValidDate b))))
  /\ (forall invoice,
        In invoice (filterInvoices C s
                      (mkDateRange (Some (ValidDate a)) (Some (ValidDate b))))
        <-> In invoice C /\ VehicleCriterion s invoice /\
            DateCriterion a b invoice).
Proof.
  intros Hab.
  pose proof (filterInvoices_Selects C s a b) as Hsel.
  pose proof (Selects_In _ _ _ Hsel) as Hin.
  split; [|split; [|split]].
  - intros i Hi. apply Hin in Hi. destruct Hi as (_ & _ & Hd). exact Hd.
  - intros i HC Hv Hd. apply Hin. split; [exact HC|]. split; [exact Hv|].
    destruct Hd as [Hd|Hd]; [exists a | exists b]; split; auto; lia.
  - exact Hsel.
  - exact Hin.
Qed.

(** C4.  For every world whose date range is active and every invoice of
    the master collection whose date neither [new Date] nor [parseISO]
    can parse: the filter effect completes normally, without a throw,
    and the invoice is not in the filtered view it sets. *)
Theorem filter_excludes_unparsable_date
    (w : World) (rangeFrom rangeTo : Date) (invoice : Invoice) :
  dateRange w = mkDateRange (Some rangeFrom) (Some rangeTo) ->
  In invoice (invoices w) ->
  Date_new (date invoice) = InvalidDate ->
  parseISO (date invoice) = InvalidDate ->
  completion (filterEffect w) = Normal tt
  /\ filteredInvoices (world (filterEffect w)) =
     filterInvoices (invoices w) (searchVehicle w) (dateRange w)
  /\ ~ In invoice (filteredInvoices (world (filterEffect w))).
Proof.
  intros Hrange Hin Hnew Hiso.
  unfold filterEffect. run_handler.
  split; [reflexivity|]. split; [reflexivity|].
  rewrite filterInvoices_steps, Hrange. cbn [from to].
  intros Hkept. apply filter_In in Hkept as [_ Hkept].
  rewrite withinRange_invalid in Hkept; [discriminate|].
  now apply parseInvoiceDate_invalid.
Qed.

(** C5.  For every collection [C], the filter with an empty search text
    and no date range answers [C] itself; so it does for a search text
    of white space only and for a range that lacks a bound. *)
Theorem filter_identity (C : list Invoice) :
  filterInvoices C "" (mkDateRange None None) = C
  /\ (forall s r,
        allWhiteSpace s = true -> from r = None \/ to r = None ->
        filterInvoices C s r = C).
Proof.
  split; [reflexivity|].
  intros s r Hblank Hrange. rewrite filterInvoices_steps.
  rewrite (trim_blank s Hblank). cbn [isEmpty].
  destruct Hrange as [-> | ->]; [reflexivity|].
  destruct (from r); reflexivity.
Qed.

(** C6.  For every collection and all criteria the filter is idempotent:
    filtering the filtered collection again changes nothing; and running
    the filter effect twice on unchanged inputs leaves the world that one
    run leaves. *)
Theorem filter_idempotent_view (C : list Invoice) (s : string) (r : DateRange)
    (w : World) :
  filterInvoices (filterInvoices C s r) s r = filterInvoices C s r
  /\ world (filterEffect (world (filterEffect w))) = world (filterEffect w).
Proof.
  split.
  - rewrite !filterInvoices_steps.
    destruct (isEmpty (trim s)), (from r) as [f|], (to r) as [t|];
      cbn zeta; rewrite ?filter_idempotent; try reflexivity.
    rewrite (filter_commute (matchesVehicle s) (withinRange f t)).
    now rewrite !filter_idempotent.
  - unfold filterEffect. run_handler. reflexivity.
Qed.

(** C7, for the invoices whose date parses and with the heading of the
    service list.  For every invoice whose date parses, to the time
    value [t], and every world: [generatePdf] completes with a document
    whose texts are, in this order, the six header lines (invoice
    identifier, formatted date, customer name, phone, vehicle model,
    vehicle number), the heading "Services:", one line per service
    numbered from 1 in service order, and the total line; the drawing
    calls it makes are those of the document, and the world is left as it
    was. *)
Theorem generatePdf_lines (invoice : Invoice) (t : Z) (w : World) :
  parseInvoiceDate (date invoice) = ValidDate t ->
  completion (generatePdf invoice w) = Normal (documentOps invoice t)
  /\ docLines (documentOps invoice t) =
     headerLines invoice (formatPPP t) ++ ["Services:"%string] ++
     numberedServiceLines 1 (services invoice) ++ [totalLine invoice]
  /\ trace (generatePdf invoice w) =
     JsPDF_new :: map JsPDF_call (documentOps invoice t)
  /\ world (generatePdf invoice w) = w.
Proof.
  intros Hdate. rewrite (generatePdf_valid invoice t w Hdate).
  repeat split. apply docLines_documentOps.
Qed.

(** C8.  For every invoice whose [customerPhone] is empty, every
    navigator and every world: [handleShare] shows the validation error
    and does nothing else: its whole trace is that one notification, so
    no call reaches the document generation or the share collaborators,
    and the world is unchanged. *)
Theorem handleShare_missing_phone (nav : Navigator) (invoice : Invoice)
    (w : World) :
  customerPhone invoice = ""%string ->
  handleShare nav invoice w =
    mkOutcome [Toast_error "Customer phone number is missing."] w (Normal tt)
  /\ filter isCollaboratorCall (trace (handleShare nav invoice w)) = []
  /\ world (handleShare nav invoice w) = w.
Proof.
  intros Hphone. unfold handleShare. rewrite Hphone. repeat split.
Qed.

(** C9.  For every invoice and every world, [downloadInvoice] and
    [saveAllInvoicesAsPDF] leave the world as it was: the master
    collection, the filtered view, the search text and date range, the
    pending delete and the stored collection; this holds also when an
    export stops at a throw. *)
Theorem exports_leave_state (invoice : Invoice) (w : World) :
  world (downloadInvoice invoice w) = w
  /\ world (saveAllInvoicesAsPDF w) = w.
Proof.
  split; [apply Frames_downloadInvoice | apply Frames_saveAllInvoicesAsPDF].
Qed.

(** C10.  For every invoice whose [customerPhone] is not empty and holds
    no digit (white space only, for one): the validation of
    [handleShare] passes, the handler runs the share attempt, whose first
    call creates the document, and never shows the validation error;
    the phone stripped to digits is empty, so that on a platform without
    [navigator.share], for a date that parses, the link that is opened is
    [https://wa.me/?text=...], with no phone number in it. *)
Theorem handleShare_phone_without_digits (nav : Navigator)
    (invoice : Invoice) (w : World) :
  customerPhone invoice <> ""%string ->
  noDigit (customerPhone invoice) = true ->
  handleShare nav invoice w =
    try_catch (shareAttempt nav invoice) shareFailed w
  /\ hd_error (trace (handleShare nav invoice w)) = Some JsPDF_new
  /\ existsb isMissingPhoneToast (trace (handleShare nav invoice w)) = false
  /\ replaceNonDigits (customerPhone invoice) = ""%string
  /\ (forall t,
        share nav = None ->
        parseInvoiceDate (date invoice) = ValidDate t ->
        handleShare nav invoice w =
        mkOutcome
          (JsPDF_new :: map JsPDF_call (documentOps invoice t) ++
           [JsPDF_output_blob (documentOps invoice t);
            Window_open ("https://wa.me/?text=" ++ shareMessage invoice)
              "_blank"])
          w (Normal tt)).
Proof.
  intros Hphone Hdigits.
  assert (Hrun : handleShare nav invoice w =
                 try_catch (shareAttempt nav invoice) shareFailed w).
  { unfold handleShare. apply isEmpty_false in Hphone. now rewrite Hphone. }
  pose proof (replaceNonDigits_noDigit _ Hdigits) as Hstrip.
  rewrite Hrun. split; [reflexivity|]. split; [|split; [|split]].
  - unfold try_catch.
    destruct (parseInvoiceDate (date invoice)) as [t|] eqn:Hdate.
    + destruct (share nav) as [shareFn|] eqn:Hshare.
      * rewrite (shareAttempt_native nav invoice t shareFn w Hdate Hshare).
        destruct (shareFn _) as [[]|e]; [reflexivity|].
        destruct (shareFailed e w); reflexivity.
      * now rewrite (shareAttempt_fallback nav invoice t w Hdate Hshare).
    + rewrite (shareAttempt_invalid nav invoice w Hdate).
      destruct (shareFailed _ w); reflexivity.
  - apply shareAttempt_no_missing_phone_toast.
  - exact Hstrip.
  - intros t Hshare Hdate. unfold try_catch.
    rewrite (shareAttempt_fallback nav invoice t w Hdate Hshare), Hstrip.
    reflexivity.
Qed.

End Properties.

(* ================================================================== *)
(** ** The properties at concrete inputs                               *)
(* ================================================================== *)

Section Instances.

Import SampleRuntime.


(** C3 at the collection of the scenario and the range of February
    2024. *)
Lemma filter_by_date_range_witness :
  (1706745600000 <= 1709078400000)%Z /\
  (forall invoice,
     In invoice (filterInvoices collection ""
                   (mkDateRange (Some (ValidDate 1706745600000))
                                (Some (ValidDate 1709078400000)))) ->
     exists d, parseInvoiceDate (date invoice) = ValidDate d /\
               (1706745600000 <= d <= 1709078400000)%Z).
Proof.
  assert (H : (1706745600000 <= 1709078400000)%Z) by lia.
  split; [exact H|].
  exact (proj1 (filter_by_date_range collection "" _ _ H)).
Defined.

(** C4 at the invoice dated "someday", with the range of February 2024
    active. *)
Lemma filter_excludes_unparsable_date_witness :
  dateRange worldFebruary =
    mkDateRange (Some (ValidDate 1706745600000))
                (Some (ValidDate 1709078400000))
  /\ In invoice3 (invoices worldFebruary)
  /\ Date_new (date invoice3) = InvalidDate
  /\ parseISO (date invoice3) = InvalidDate
  /\ completion (filterEffect worldFebruary) = Normal tt
  /\ ~ In invoice3 (filteredInvoices (world (filterEffect worldFebruary))).
Proof.
  assert (Hrange : dateRange worldFebruary =
                   mkDateRange (Some (ValidDate 1706745600000))
                               (Some (ValidDate 1709078400000)))
    by reflexivity.
  assert (Hin : In invoice3 (invoices worldFebruary))
    by (simpl; auto).
  assert (Hnew : Date_new (date invoice3) = InvalidDate) by reflexivity.
  assert (Hiso : parseISO (date invoice3) = InvalidDate) by reflexivity.
  destruct (filter_excludes_unparsable_date worldFebruary _ _ invoice3
              Hrange Hin Hnew Hiso) as (Hdone & _ & Hout).
  repeat split; assumption.
Defined.

(** C7 at the first invoice of the scenario. *)
Lemma generatePdf_lines_witness :
  parseInvoiceDate (date invoice1) = ValidDate 1704412800000 /\
  docLines (documentOps invoice1 1704412800000) =
  [ "Invoice #1"; "Date: January 5th, 2024"; "Customer Name: Asha Rao";
    "Phone: +91 98450 12345"; "Vehicle Model: Swift";
    "Vehicle Number: KA01AB1234"; "Services:";
    "1. AC gas refill - ₹300"; "2. Filter cleaning - ₹200";
    "Total: ₹500" ]%string.
Proof.
  assert (H : parseInvoiceDate (date invoice1) = ValidDate 1704412800000)
    by reflexivity.
  split; [exact H|].
  exact (proj1 (proj2 (generatePdf_lines invoice1 _ world0 H))).
Defined.

(** C7 as the specification states it fails twice.  For the first
    invoice of the scenario, whose date parses, the lines drawn are not
    the lines of section 4.2, whatever the formatted date: the heading
    "Services:" stands between the vehicle number and the first service.
    For the invoice dated "someday" no document is produced at all:
    [format] throws. *)
Lemma generatePdf_lines_counterexample :
  (forall doc formatted,
     completion (generatePdf invoice1 world0) = Normal doc ->
     docLines doc <> specifiedLines invoice1 formatted)
  /\ completion (generatePdf invoice3 world0) =
     Throw (mkError "RangeError" "Invalid time value").
Proof.
  split; [|reflexivity].
  intros doc formatted Hdoc Hlines.
  vm_compute in Hdoc. inversion Hdoc; subst doc; clear Hdoc.
  apply (f_equal (fun lines => nth 6 lines ""%string)) in Hlines.
  vm_compute in Hlines. discriminate Hlines.
Qed.

(** C8 at the second invoice of the scenario, which has no phone. *)
Lemma handleShare_missing_phone_witness :
  customerPhone invoice2 = ""%string /\
  handleShare noShare invoice2 world0 =
  mkOutcome [Toast_error "Customer phone number is missing."] world0
    (Normal tt).
Proof.
  assert (H : customerPhone invoice2 = ""%string) by reflexivity.
  split; [exact H|].
  exact (proj1 (handleShare_missing_phone noShare invoice2 world0 H)).
Defined.

(** C10 at the invoice whose phone is three spaces. *)
Lemma handleShare_phone_without_digits_witness :
  customerPhone invoice3 <> ""%string /\
  noDigit (customerPhone invoice3) = true /\
  hd_error (trace (handleShare noShare invoice3 world0)) = Some JsPDF_new /\
  replaceNonDigits (customerPhone invoice3) = ""%string.
Proof.
  assert (H1 : customerPhone invoice3 <> ""%string) by (simpl; discriminate).
  assert (H2 : noDigit (customerPhone invoice3) = true) by reflexivity.
  destruct (handleShare_phone_without_digits noShare invoice3 world0 H1 H2)
    as (_ & Hfirst & _ & Hstrip & _).
  repeat split; assumption.
Defined.

(** The scenario of section 8 of the specification. *)
Example scenario_vehicle :
  map id (filterInvoices collection "ka01" noRange) = ["1"%string].
Proof. reflexivity. Qed.

Example scenario_february :
  map id (filterInvoices collection "" february) = ["2"%string].
Proof. reflexivity. Qed.

Example scenario_delete :
  invoices (world (handleDelete "1" world0)) = [invoice2; invoice3].
Proof. reflexivity. Qed.

(** A phone with no digit in it, on a platform without
    [navigator.share]: the link has no number. *)
Example share_without_number :
  last (trace (handleShare noShare
                 (mkInvoice "4" "2024-03-15" "Ravi" "n/a" "Alto" "TN09"
                    [] 0%Z) world0))
       JsPDF_new =
  Window_open
    "https://wa.me/?text=Hi%20Ravi%2C%20here's%20your%20invoice%20for%20Alto%20(TN09).%0ATotal%3A%20%E2%82%B90%0ADownload%20PDF%3A"
    "_blank".
Proof. reflexivity. Qed.

(** A cancelled native share is logged and shows no notification. *)
Example share_cancelled :
  filter (fun e => match e with Toast_error _ | Toast_success _ => true
                             | _ => false end)
    (trace (handleShare shareCancelled invoice1 world0)) = [].
Proof. reflexivity. Qed.

(** String built-ins on small inputs. *)
Example trim_example : trim "  ka01 " = "ka01"%string.
Proof. reflexivity. Qed.

Example includes_example :
  includes "ka01ab1234" "1ab" = true /\ includes "abc" "" = true /\
  includes "abc" "cb" = false.
Proof. repeat split. Qed.

Example replaceSpaceRuns_example :
  replaceSpaceRuns false "Vikram  N" = "Vikram_N"%string.
Proof. reflexivity. Qed.

Example replaceNonDigits_example :
  replaceNonDigits "+91 98450-12345" = "919845012345"%string.
Proof. reflexivity. Qed.

End Instances.


(* ================================================================== *)
(** ** More on the filter and on what the delete keeps                 *)
(* ================================================================== *)

Section MoreFilterFacts.

Context {RT : JsRuntime}.

Lemma filter_none {A : Type} (p : A -> bool) (l : list A) :
  (forall x, In x l -> p x = false) -> filter p l = [].
Proof.
  induction l as [|x l IH]; intros H; simpl; [reflexivity|].
  rewrite (H x (or_introl eq_refl)). apply IH. intros y Hy. apply H. now right.
Qed.

Lemma In_map_filter {A B : Type} (f : A -> B) (p : A -> bool) (l : list A)
    (y : B) :
  In y (map f (filter p l)) -> In y (map f l).
Proof.
  rewrite !in_map_iff. intros (x & Hx & Hin).
  apply filter_In in Hin as [Hin _]. eauto.
Qed.

(** Keys that are pairwise distinct stay so when items are left out. *)
Lemma distinct_keys_filter {V K : Type} (keep : V -> bool) (key : V -> K) :
  forall items : list V,
    NoDup (map key items) -> NoDup (map key (filter keep items)).
Proof.
  intros items Hdistinct.
  induction items as [|v items IH]; cbn; [exact Hdistinct|].
  apply NoDup_cons_iff in Hdistinct as [Hfresh Hrest].
  destruct (keep v); cbn; [apply NoDup_cons|]; auto.
  intros Hin. apply Hfresh. eapply In_map_filter; eassumption.
Qed.

Lemma filterInvoices_is_filter (C : list Invoice) (s : string) (r : DateRange) :
  exists p, forall C', filterInvoices C' s r = filter p C'.
Proof.
  destruct (isEmpty (trim s)) eqn:He, (from r) as [f|] eqn:Hf,
           (to r) as [t|] eqn:Ht.
  - exists (withinRange f t). intros C'.
    rewrite filterInvoices_steps, He, Hf, ?Ht. reflexivity.
  - exists (fun _ => true). intros C'.
    rewrite filterInvoices_steps, He, Hf, ?Ht. cbn zeta.
    symmetry. apply forallb_filter_id. now apply forallb_forall.
  - exists (fun _ => true). intros C'.
    rewrite filterInvoices_steps, He, Hf, ?Ht. cbn zeta.
    symmetry. apply forallb_filter_id. now apply forallb_forall.
  - exists (fun _ => true). intros C'.
    rewrite filterInvoices_steps, He, Hf, ?Ht. cbn zeta.
    symmetry. apply forallb_filter_id. now apply forallb_forall.
  - exists (fun i => matchesVehicle s i && withinRange f t i). intros C'.
    rewrite filterInvoices_steps, He, Hf, ?Ht. cbn zeta.
    clear. induction C' as [|x C' IH]; simpl; [reflexivity|].
    destruct (matchesVehicle s x); simpl; [|exact IH].
    destruct (withinRange f t x); now rewrite IH.
  - exists (matchesVehicle s). intros C'.
    rewrite filterInvoices_steps, He, Hf, ?Ht. reflexivity.
  - exists (matchesVehicle s). intros C'.
    rewrite filterInvoices_steps, He, Hf, ?Ht. reflexivity.
  - exists (matchesVehicle s). intros C'.
    rewrite filterInvoices_steps, He, Hf, ?Ht. reflexivity.
Qed.

Lemma filterInvoices_filter (q : Invoice -> bool) (C : list Invoice)
    (s : string) (r : DateRange) :
  filterInvoices (filter q C) s r = filter q (filterInvoices C s r).
Proof.
  destruct (filterInvoices_is_filter C s r) as [p Hp].
  rewrite !Hp. apply filter_commute.
Qed.

Lemma withoutId_length_unique (X : string) (C : list Invoice) :
  NoDup (map id C) -> In X (map id C) ->
  S (List.length (withoutId X C)) = List.length C.
Proof.
  unfold withoutId.
  induction C as [|x C IH]; simpl; intros Hnd Hin; [contradiction|].
  inversion Hnd as [|? ? Hnotin Hrest]; subst.
  destruct (id x =? X)%string eqn:Hx; simpl.
  - apply String.eqb_eq in Hx. subst X. f_equal.
    f_equal. apply forallb_filter_id. apply forallb_forall.
    intros y Hy. apply negb_true_iff, String.eqb_neq.
    intros Heq. apply Hnotin. rewrite <- Heq. now apply in_map.
  - f_equal. apply IH; [assumption|].
    destruct Hin as [Heq|Hin]; [|assumption].
    apply String.eqb_neq in Hx. contradiction.
Qed.

Lemma handleDelete_world (X : string) (w : World) :
  world (handleDelete X w) =
  mkWorld (withoutId X (invoices w)) (withoutId X (invoices w)) None
    (searchVehicle w) (dateRange w) (Some (withoutId X (invoices w))).
Proof. reflexivity. Qed.

End MoreFilterFacts.

(* ================================================================== *)
(** ** Further properties: filter, reset, load, delete                 *)
(* ================================================================== *)

Section FurtherFilterProperties.

Context {RT : JsRuntime}.

(** X1.  The filter judges each invoice on its own: the view of two
    collections put end to end is the two views put end to end, for all
    criteria. *)
Theorem filter_distributes_over_append (C1 C2 : list Invoice) (s : string)
    (r : DateRange) :
  filterInvoices (C1 ++ C2) s r =
  filterInvoices C1 s r ++ filterInvoices C2 s r.
Proof.
  destruct (filterInvoices_is_filter C1 s r) as [p Hp].
  rewrite !Hp. apply filter_app.
Qed.

(** X2.  The view does not depend on white space around the search
    text: the trimmed text gives the view of the text itself, and so does
    the text with any white-space characters of the language, ASCII or
    not, put before and after it. *)
Theorem filter_search_text_normalised (C : list Invoice) (s : string)
    (r : DateRange) :
  filterInvoices C (trim s) r = filterInvoices C s r
  /\ (forall lead trail,
        WhiteSpaceOnly lead -> WhiteSpaceOnly trail ->
        filterInvoices C (lead ++ s ++ trail) r = filterInvoices C s r).
Proof.
  split.
  - rewrite !filterInvoices_steps. unfold matchesVehicle.
    now rewrite trim_idempotent.
  - intros lead trail Hlead Htrail.
    rewrite !filterInvoices_steps. unfold matchesVehicle.
    now rewrite (trim_padded lead s trail Hlead Htrail).
Qed.

(** X3.  A range whose end lies before its start shows nothing, whatever
    the collection and the search text. *)
Theorem filter_inverted_range_empty (C : list Invoice) (s : string) (a b : Z) :
  (b < a)%Z ->
  filterInvoices C s (mkDateRange (Some (ValidDate a)) (Some (ValidDate b))) = [].
Proof.
  intros Hba. rewrite filterInvoices_steps. cbn [from to]. cbn zeta.
  apply filter_none. intros x _.
  destruct (withinRange (ValidDate a) (ValidDate b) x) eqn:Hx; [|reflexivity].
  apply withinRange_spec in Hx as (d & _ & Hd). lia.
Qed.

(** X4.  When the ids of the master collection are pairwise distinct, so
    are the ids of every filtered view: the React keys of the cards do not
    collide. *)
Theorem filter_keeps_ids_unique (C : list Invoice) (s : string) (r : DateRange) :
  NoDup (map id C) -> NoDup (map id (filterInvoices C s r)).
Proof.
  intros H. destruct (filterInvoices_is_filter C s r) as [p Hp].
  rewrite Hp. now apply distinct_keys_filter.
Qed.

(** X5.  "Reset" followed by the effect it triggers: the search text is
    empty, no date range is set, the view is the whole master collection;
    the master collection, the pending delete and the store are as before,
    and no collaborator is called. *)
Theorem resetTransition_clears (w : World) :
  resetTransition w =
  mkOutcome []
    (mkWorld (invoices w) (invoices w) (invoiceToDelete w) ""
       (mkDateRange None None) (localStorage_invoices w))
    (Normal tt).
Proof. reflexivity. Qed.

(** X6.  When the store has no entry ['invoices'], the first effect
    leaves an empty master collection and an empty view, and the
    component, whatever label the date-range button gets, renders no card
    and the text "No invoices found". *)
Theorem loadEffect_missing_key (w : World) (label : string) :
  localStorage_invoices w = None ->
  renderRangeLabel (dateRange w) = Normal label ->
  invoices (world (loadEffect w)) = []
  /\ filteredInvoices (world (loadEffect w)) = []
  /\ render (world (loadEffect w)) =
     Normal (mkView label (searchVehicle w) [] true
               (isPending (invoiceToDelete w))).
Proof.
  intros Hstore Hlabel.
  unfold loadEffect, localStorage_getItem_invoices. run_handler.
  rewrite Hstore. unfold render. cbn [dateRange filteredInvoices renderCards
    searchVehicle invoiceToDelete List.length Nat.eqb].
  rewrite Hlabel. repeat split.
Qed.

(** X8.  Deleting the same id a second time changes nothing more, and
    two deletes leave the same world in either order. *)
Theorem handleDelete_idempotent_commutes (w : World) (X Y : string) :
  world (handleDelete X (world (handleDelete X w))) = world (handleDelete X w)
  /\ world (handleDelete X (world (handleDelete Y w))) =
     world (handleDelete Y (world (handleDelete X w))).
Proof.
  rewrite !handleDelete_world. cbn [invoices searchVehicle dateRange].
  unfold withoutId. split.
  - now rewrite filter_idempotent.
  - now rewrite (filter_commute
                   (fun invoice => negb (id invoice =? X)%string)
                   (fun invoice => negb (id invoice =? Y)%string)).
Qed.

(** X9.  When the ids of the master collection are pairwise distinct and
    one of them is [X], [handleDelete X] removes exactly one invoice. *)
Theorem handleDelete_unique_removes_one (w : World) (X : string) :
  NoDup (map id (invoices w)) -> In X (map id (invoices w)) ->
  S (List.length (invoices (world (handleDelete X w)))) =
  List.length (invoices w).
Proof.
  intros Hnd Hin. rewrite handleDelete_world. cbn [invoices].
  now apply withoutId_length_unique.
Qed.

(** X10.  A confirmed delete keeps the criteria in force: after the
    handler and the effect it triggers, the view is the view of the old
    master collection without the invoices of id [X], and the search text
    and the date range are as before. *)
Theorem deleteTransition_view_without (w : World) (X : string) :
  filteredInvoices (world (deleteTransition X w)) =
    withoutId X (filterInvoices (invoices w) (searchVehicle w) (dateRange w))
  /\ searchVehicle (world (deleteTransition X w)) = searchVehicle w
  /\ dateRange (world (deleteTransition X w)) = dateRange w.
Proof.
  unfold deleteTransition, handleDelete, filterEffect. run_handler.
  split; [|split; reflexivity].
  apply filterInvoices_filter.
Qed.

(** X11.  The dialog flow for an id that is not the empty string: the
    trash button and then "Delete" leave the world that [handleDelete]
    leaves, with no delete pending, and make the same calls. *)
Theorem requestThenConfirm_deletes (w : World) (X : string) :
  X <> ""%string ->
  world (requestThenConfirm X w) = world (handleDelete X w)
  /\ trace (requestThenConfirm X w) = trace (handleDelete X w)
  /\ completion (requestThenConfirm X w) = Normal tt
  /\ invoiceToDelete (world (requestThenConfirm X w)) = None.
Proof.
  intros HX. apply isEmpty_false in HX.
  unfold requestThenConfirm, requestDelete, confirmDelete. run_handler.
  cbn [invoiceToDelete]. rewrite HX.
  unfold handleDelete. run_handler. repeat split.
Qed.

(** X12.  An invoice whose id is the empty string cannot be deleted
    through the dialog: with the empty id pending the dialog is not open,
    and "Delete" calls nothing and leaves the master collection, the view
    and the store as they were. *)
Theorem requestThenConfirm_empty_id (w : World) :
  requestThenConfirm "" w =
    mkOutcome []
      (mkWorld (invoices w) (filteredInvoices w) (Some ""%string)
         (searchVehicle w) (dateRange w) (localStorage_invoices w))
      (Normal tt)
  /\ isPending (invoiceToDelete (world (requestThenConfirm "" w))) = false.
Proof. split; reflexivity. Qed.

End FurtherFilterProperties.

(* ================================================================== *)
(** ** More on traces, rendering and exports                           *)
(* ================================================================== *)

Section MoreRunningFacts.

Context {RT : JsRuntime}.

Lemma savedFiles_app (tr1 tr2 : list Event) :
  savedFiles (tr1 ++ tr2) = savedFiles tr1 ++ savedFiles tr2.
Proof.
  induction tr1 as [|e tr1 IH]; simpl; [reflexivity|].
  destruct e; simpl; rewrite ?IH; reflexivity.
Qed.

Lemma toasts_app (tr1 tr2 : list Event) :
  toasts (tr1 ++ tr2) = toasts tr1 ++ toasts tr2.
Proof.
  induction tr1 as [|e tr1 IH]; simpl; [reflexivity|].
  destruct e; simpl; rewrite ?IH; reflexivity.
Qed.

Lemma shareCalls_app (tr1 tr2 : list Event) :
  shareCalls (tr1 ++ tr2) = shareCalls tr1 ++ shareCalls tr2.
Proof.
  induction tr1 as [|e tr1 IH]; simpl; [reflexivity|].
  destruct e; simpl; rewrite ?IH; reflexivity.
Qed.

(** Drawing calls save nothing, notify nothing and share nothing. *)
Lemma drawing_is_silent (ops : list DocOp) :
  savedFiles (map JsPDF_call ops) = []
  /\ toasts (map JsPDF_call ops) = []
  /\ shareCalls (map JsPDF_call ops) = [].
Proof. induction ops as [|op ops (H1 & H2 & H3)]; simpl; auto. Qed.

Lemma textHeights_app (d1 d2 : Doc) :
  textHeights (d1 ++ d2) = textHeights d1 ++ textHeights d2.
Proof.
  induction d1 as [|[size|t x y] d1 IH]; simpl; [reflexivity | assumption |].
  now rewrite IH.
Qed.

(** The service lines and the total line go down the page, none above
    the height [y] of the first. *)
Lemma serviceOps_heights (services : list ServiceItem) :
  forall (index : nat) (y : Z),
    StronglySorted Z.lt
      (textHeights (serviceOps services index y) ++
       [(y + 8 * Z.of_nat (List.length services) + 5)%Z])
    /\ Forall (fun h => (y <= h)%Z)
         (textHeights (serviceOps services index y) ++
          [(y + 8 * Z.of_nat (List.length services) + 5)%Z]).
Proof.
  induction services as [|service rest IH]; intros index y.
  - simpl. split; repeat constructor. lia.
  - destruct (IH (S index) (y + 8)%Z) as [Hsorted Hall].
    cbn [serviceOps textHeights app List.length].
    replace (y + 8 * Z.of_nat (S (List.length rest)) + 5)%Z
      with (y + 8 + 8 * Z.of_nat (List.length rest) + 5)%Z by lia.
    split.
    + constructor; [exact Hsorted|].
      eapply Forall_impl; [|exact Hall]. cbn beta. intros h Hh. lia.
    + constructor; [lia|].
      eapply Forall_impl; [|exact Hall]. cbn beta. intros h Hh. lia.
Qed.

Lemma documentOps_heights (invoice : Invoice) (t : Z) :
  StronglySorted Z.lt (textHeights (documentOps invoice t)).
Proof.
  unfold documentOps. rewrite !textHeights_app.
  destruct (serviceOps_heights (services invoice) 0 93%Z) as [Hsorted Hall].
  change (textHeights [Text (totalLine invoice) 14
            (93 + 8 * Z.of_nat (List.length (services invoice)) + 5)])
    with [(93 + 8 * Z.of_nat (List.length (services invoice)) + 5)%Z].
  cbn [textHeights app].
  assert (Hbelow : forall k, (k < 93)%Z ->
            Forall (Z.lt k)
              (textHeights (serviceOps (services invoice) 0 93) ++
               [(93 + 8 * Z.of_nat (List.length (services invoice)) + 5)%Z])).
  { intros k Hk. eapply Forall_impl; [|exact Hall]. cbn beta. intros h Hh. lia. }
  repeat (constructor; [| repeat (constructor; [lia|]); apply Hbelow; lia]).
  exact Hsorted.
Qed.

Lemma generatePdf_completes (invoice : Invoice) (w : World) (doc : Doc) :
  completion (generatePdf invoice w) = Normal doc ->
  exists t, parseInvoiceDate (date invoice) = ValidDate t
            /\ doc = documentOps invoice t.
Proof.
  destruct (parseInvoiceDate (date invoice)) as [t|] eqn:Hdate.
  - rewrite (generatePdf_valid invoice t w Hdate). intros H.
    inversion H. eauto.
  - rewrite (generatePdf_invalid invoice w Hdate). discriminate.
Qed.

Lemma downloadInvoice_valid (invoice : Invoice) (t : Z) (w : World) :
  parseInvoiceDate (date invoice) = ValidDate t ->
  downloadInvoice invoice w =
  mkOutcome
    (JsPDF_new :: map JsPDF_call (documentOps invoice t) ++
     [JsPDF_save (documentOps invoice t) (exportFileName invoice)])
    w (Normal tt).
Proof.
  intros Hdate. unfold downloadInvoice. unfold bind at 1.
  rewrite (generatePdf_valid invoice t w Hdate). reflexivity.
Qed.

Lemma downloadInvoice_invalid (invoice : Invoice) (w : World) :
  parseInvoiceDate (date invoice) = InvalidDate ->
  downloadInvoice invoice w =
  mkOutcome
    [JsPDF_new; JsPDF_call (SetFontSize 16);
     JsPDF_call (Text ("Invoice #" ++ id invoice) 14 20);
     JsPDF_call (SetFontSize 12)] w
    (Throw (mkError "RangeError" "Invalid time value")).
Proof.
  intros Hdate. unfold downloadInvoice. unfold bind at 1.
  rewrite (generatePdf_invalid invoice w Hdate). reflexivity.
Qed.

(** The loop of "Save all" over invoices whose dates parse. *)
Lemma forEach_download_valid (shown : list Invoice) (w : World) :
  Forall DateParses shown ->
  exists tr,
    forEach shown downloadInvoice w = mkOutcome tr w (Normal tt)
    /\ savedFiles tr = map exportFileName shown
    /\ toasts tr = [].
Proof.
  induction 1 as [|invoice rest [t Hdate] _ (tr & Hrun & Hsaved & Htoasts)].
  - exists []. repeat split.
  - eexists. cbn [forEach]. unfold bind.
    rewrite (downloadInvoice_valid invoice t w Hdate), Hrun.
    split; [reflexivity|].
    destruct (drawing_is_silent (documentOps invoice t)) as (Hs & Ht & _).
    cbn [savedFiles toasts app]. rewrite !savedFiles_app, !toasts_app, Hs, Ht.
    cbn [savedFiles toasts app map]. rewrite Hsaved, Htoasts. split; reflexivity.
Qed.

(** The loop of "Save all" up to the first invoice whose date does not
    parse. *)
Lemma forEach_download_stops (before after : list Invoice) (bad : Invoice)
    (w : World) :
  Forall DateParses before ->
  parseInvoiceDate (date bad) = InvalidDate ->
  exists tr,
    forEach (before ++ bad :: after) downloadInvoice w =
      mkOutcome tr w (Throw (mkError "RangeError" "Invalid time value"))
    /\ savedFiles tr = map exportFileName before
    /\ toasts tr = [].
Proof.
  intros Hbefore Hbad.
  induction Hbefore as [|invoice rest [t Hdate] _ (tr & Hrun & Hsaved & Htoasts)].
  - eexists. cbn [app forEach]. unfold bind.
    rewrite (downloadInvoice_invalid bad w Hbad). repeat split.
  - eexists. cbn [app forEach]. unfold bind.
    rewrite (downloadInvoice_valid invoice t w Hdate), Hrun.
    split; [reflexivity|].
    destruct (drawing_is_silent (documentOps invoice t)) as (Hs & Ht & _).
    cbn [savedFiles toasts app]. rewrite !savedFiles_app, !toasts_app, Hs, Ht.
    cbn [savedFiles toasts app map]. rewrite Hsaved, Htoasts. split; reflexivity.
Qed.

Lemma saveAll_unfold (w : World) :
  saveAllInvoicesAsPDF w =
  bind (forEach (filteredInvoices w) downloadInvoice)
       (fun _ => toast_success "All invoices saved as PDFs") w.
Proof.
  unfold saveAllInvoicesAsPDF. unfold bind at 1. cbn [getWorld].
  match goal with
  | |- match ?run with mkOutcome _ _ _ => _ end = ?loop =>
      change loop with run; destruct run
  end.
  reflexivity.
Qed.

Lemma renderCard_completes (invoice : Invoice) :
  (exists card, renderCard invoice = Normal card) <-> DateParses invoice.
Proof.
  unfold renderCard, DateParses.
  destruct (parseInvoiceDate (date invoice)) as [t|]; simpl; split.
  - intros _. eauto.
  - intros _. eauto.
  - intros [card H]. discriminate.
  - intros [t H]. discriminate.
Qed.

Lemma renderCards_completes (shown : list Invoice) :
  (exists shownCards, renderCards shown = Normal shownCards
                      /\ map cardKey shownCards = map id shown)
  <-> Forall DateParses shown.
Proof.
  induction shown as [|invoice rest IH]; simpl.
  - split; [constructor | exists []; auto].
  - split.
    + intros (shownCards & H & _).
      destruct (renderCard invoice) as [card|e] eqn:Hcard; [|discriminate].
      destruct (renderCards rest) as [others|e] eqn:Hrest; [|discriminate].
      constructor.
      * apply renderCard_completes. eauto.
      * apply IH. destruct IH as [_ IH].
        assert (Hall : Forall DateParses rest).
        { clear - Hrest. revert others Hrest.
          induction rest as [|x rest IHr]; intros others Hrest; [constructor|].
          simpl in Hrest.
          destruct (renderCard x) as [c|e] eqn:Hx; [|discriminate].
          destruct (renderCards rest) as [cs|e] eqn:Hcs; [|discriminate].
          constructor; [apply renderCard_completes; eauto | eauto]. }
        apply IH, Hall.
    + intros Hall. inversion Hall as [|? ? Hx Hrest]; subst.
      apply IH in Hrest as (others & Hothers & Hkeys).
      apply renderCard_completes in Hx as [card Hcard].
      rewrite Hcard, Hothers. exists (card :: others). split; [reflexivity|].
      simpl. rewrite Hkeys. f_equal.
      unfold renderCard in Hcard.
      destruct (formatDate _); [|discriminate]. now inversion Hcard.
Qed.

(** Every invoice that passes an active date range has a date that
    parses. *)
Lemma filterInvoices_dated (C : list Invoice) (s : string) (a b : Z) :
  Forall DateParses
    (filterInvoices C s (mkDateRange (Some (ValidDate a)) (Some (ValidDate b)))).
Proof.
  apply Forall_forall. intros x Hx.
  apply (Selects_In _ _ _ (filterInvoices_Selects C s a b)) in Hx
    as (_ & _ & d & Hd & _).
  exists d. exact Hd.
Qed.

End MoreRunningFacts.

(* ================================================================== *)
(** ** Further properties: rendering, export, share                    *)
(* ================================================================== *)

Section FurtherProperties.

Context {RT : JsRuntime}.

(** X13.  The component renders without a throw exactly when the label of
    the date-range button can be formatted and the date of every invoice
    of the view parses; one displayed invoice with an unparsable date
    makes the whole rendering throw. *)
Theorem render_completes_iff (w : World) :
  (exists view, render w = Normal view) <->
  (exists label, renderRangeLabel (dateRange w) = Normal label)
  /\ Forall DateParses (filteredInvoices w).
Proof.
  unfold render. split.
  - intros [view H].
    destruct (renderRangeLabel (dateRange w)) as [label|e]; [|discriminate].
    destruct (renderCards (filteredInvoices w)) as [shown|e] eqn:Hcards;
      [|discriminate].
    split; [eauto|]. clear H.
    revert shown Hcards.
    induction (filteredInvoices w) as [|x rest IH]; intros shown Hcards;
      [constructor|].
    simpl in Hcards.
    destruct (renderCard x) as [c|e] eqn:Hx; [|discriminate].
    destruct (renderCards rest) as [cs|e] eqn:Hcs; [|discriminate].
    constructor; [apply renderCard_completes; eauto | eauto].
  - intros [[label Hlabel] Hall]. rewrite Hlabel.
    apply renderCards_completes in Hall as (shown & Hshown & _).
    rewrite Hshown. eauto.
Qed.

(** X14.  With a date range of two valid bounds in force, the view that
    the filter effect sets always renders: one card per invoice of the
    view, in its order, whatever dates the master collection holds. *)
Theorem render_after_date_filter (w : World) (a b : Z) :
  dateRange w = mkDateRange (Some (ValidDate a)) (Some (ValidDate b)) ->
  exists view,
    render (world (filterEffect w)) = Normal view
    /\ map cardKey (cards view) =
       map id (filterInvoices (invoices w) (searchVehicle w) (dateRange w))
    /\ rangeLabel view = (formatPPP a ++ " - " ++ formatPPP b)%string.
Proof.
  intros Hrange. unfold filterEffect. run_handler.
  unfold render. cbn [dateRange filteredInvoices searchVehicle invoiceToDelete].
  rewrite Hrange. cbn [renderRangeLabel from to formatDate].
  destruct (proj2 (renderCards_completes _)
              (filterInvoices_dated (invoices w) (searchVehicle w) a b))
    as (shown & Hshown & Hkeys).
  rewrite Hshown. eexists. split; [reflexivity|]. cbn [cards rangeLabel].
  split; [exact Hkeys | reflexivity].
Qed.

(** X15.  In every document that [generatePdf] completes, each text is
    drawn lower on the page than the one before: no two lines share a
    height, however many services the invoice has. *)
Theorem generatePdf_heights_increase (invoice : Invoice) (w : World)
    (doc : Doc) :
  completion (generatePdf invoice w) = Normal doc ->
  StronglySorted Z.lt (textHeights doc).
Proof.
  intros H. apply generatePdf_completes in H as (t & _ & ->).
  apply documentOps_heights.
Qed.

(** X16.  For an invoice whose date parses, [downloadInvoice] draws the
    document and saves it once, under the name [Invoice_<name>_<id>.pdf]
    where [<name>] is the customer name with every maximal run of
    white-space characters replaced by one underscore; such a name exists
    for every customer name; no notification is shown and the world is
    left as it was. *)
Theorem downloadInvoice_saves_one (invoice : Invoice) (t : Z) (w : World) :
  parseInvoiceDate (date invoice) = ValidDate t ->
  (exists safeName, CollapsesRuns (customerName invoice) safeName)
  /\ (forall safeName,
        CollapsesRuns (customerName invoice) safeName ->
        downloadInvoice invoice w =
          mkOutcome
            (JsPDF_new :: map JsPDF_call (documentOps invoice t) ++
             [JsPDF_save (documentOps invoice t)
                ("Invoice_" ++ safeName ++ "_" ++ id invoice ++ ".pdf")])
            w (Normal tt)
        /\ savedFiles (trace (downloadInvoice invoice w)) =
           [("Invoice_" ++ safeName ++ "_" ++ id invoice ++ ".pdf")%string]
        /\ toasts (trace (downloadInvoice invoice w)) = []).
Proof.
  intros Hdate. split.
  - eexists. apply (replaceSpaceRuns_collapses _ _ (le_n _)).
  - intros safeName Hsafe. apply CollapsesRuns_unique in Hsafe. subst safeName.
    rewrite (downloadInvoice_valid invoice t w Hdate).
    split; [reflexivity|].
    destruct (drawing_is_silent (documentOps invoice t)) as (Hs & Ht & _).
    cbn [trace savedFiles toasts]. rewrite savedFiles_app, toasts_app, Hs, Ht.
    split; reflexivity.
Qed.

(** X17.  For an invoice whose date does not parse, [downloadInvoice]
    throws the [RangeError] of [format]: nothing is saved, no notification
    is shown and the world is as it was. *)
Theorem downloadInvoice_unparsable (invoice : Invoice) (w : World) :
  parseInvoiceDate (date invoice) = InvalidDate ->
  completion (downloadInvoice invoice w) =
    Throw (mkError "RangeError" "Invalid time value")
  /\ savedFiles (trace (downloadInvoice invoice w)) = []
  /\ toasts (trace (downloadInvoice invoice w)) = []
  /\ world (downloadInvoice invoice w) = w.
Proof.
  intros Hdate. rewrite (downloadInvoice_invalid invoice w Hdate).
  repeat split.
Qed.

(** X18.  The customer part of the name of an exported file holds no
    white-space character of the language, ASCII or not, whatever the
    customer name is; and a customer name that holds none is used as it
    is. *)
Theorem exportFileName_no_space (invoice : Invoice) :
  ~ ContainsWhiteSpace (replaceSpaceRuns false (customerName invoice))
  /\ (~ ContainsWhiteSpace (customerName invoice) ->
      exportFileName invoice =
      ("Invoice_" ++ customerName invoice ++ "_" ++ id invoice ++ ".pdf")%string).
Proof.
  split.
  - apply (CollapsesRuns_no_space (customerName invoice)).
    apply (replaceSpaceRuns_collapses _ _ (le_n _)).
  - intros Hname. unfold exportFileName.
    now rewrite (replaceSpaceRuns_fixed _ Hname).
Qed.

(** X19.  When the date of every invoice of the view parses, "Save all"
    completes, saves one file per invoice of the view, in the order of the
    view, and then shows its success notification, once. *)
Theorem saveAll_saves_view (w : World) :
  Forall DateParses (filteredInvoices w) ->
  completion (saveAllInvoicesAsPDF w) = Normal tt
  /\ savedFiles (trace (saveAllInvoicesAsPDF w)) =
     map exportFileName (filteredInvoices w)
  /\ toasts (trace (saveAllInvoicesAsPDF w)) =
     [Toast_success "All invoices saved as PDFs"].
Proof.
  intros Hall. rewrite saveAll_unfold.
  destruct (forEach_download_valid _ w Hall) as (tr & Hrun & Hsaved & Htoasts).
  unfold bind. rewrite Hrun. cbn [toast_success emit trace completion].
  rewrite savedFiles_app, toasts_app, Hsaved, Htoasts.
  cbn [savedFiles toasts app]. rewrite app_nil_r. repeat split.
Qed.

(** X20.  "Save all" stops at the first invoice of the view whose date
    does not parse: it throws there, the files of the invoices before it
    are saved, none after it is, and the success notification is not
    shown. *)
Theorem saveAll_stops_at_unparsable (w : World)
    (before after : list Invoice) (bad : Invoice) :
  filteredInvoices w = before ++ bad :: after ->
  Forall DateParses before ->
  parseInvoiceDate (date bad) = InvalidDate ->
  completion (saveAllInvoicesAsPDF w) =
    Throw (mkError "RangeError" "Invalid time value")
  /\ savedFiles (trace (saveAllInvoicesAsPDF w)) = map exportFileName before
  /\ toasts (trace (saveAllInvoicesAsPDF w)) = []
  /\ world (saveAllInvoicesAsPDF w) = w.
Proof.
  intros Hview Hbefore Hbad. rewrite saveAll_unfold, Hview.
  destruct (forEach_download_stops before after bad w Hbefore Hbad)
    as (tr & Hrun & Hsaved & Htoasts).
  unfold bind. rewrite Hrun. cbn [trace completion world]. repeat split; assumption.
Qed.

(** X21.  With a date range of two valid bounds in force, "Save all" on
    the view that the filter effect sets never throws: it saves a file for
    every invoice of the view. *)
Theorem saveAll_after_date_filter (w : World) (a b : Z) :
  dateRange w = mkDateRange (Some (ValidDate a)) (Some (ValidDate b)) ->
  completion (saveAllInvoicesAsPDF (world (filterEffect w))) = Normal tt
  /\ savedFiles (trace (saveAllInvoicesAsPDF (world (filterEffect w)))) =
     map exportFileName
       (filterInvoices (invoices w) (searchVehicle w) (dateRange w)).
Proof.
  intros Hrange.
  assert (Hall : Forall DateParses (filteredInvoices (world (filterEffect w)))).
  { unfold filterEffect. run_handler. rewrite Hrange.
    apply filterInvoices_dated. }
  destruct (forEach_download_valid _ (world (filterEffect w)) Hall)
    as (tr & Hrun & Hsaved & _).
  rewrite saveAll_unfold. unfold bind. rewrite Hrun.
  cbn [toast_success emit trace completion].
  rewrite savedFiles_app, Hsaved. cbn [savedFiles]. rewrite app_nil_r.
  split; reflexivity.
Qed.

(** X22.  [handleShare] never lets an error escape and never changes
    state: for every navigator, invoice and world it completes normally and
    leaves the world as it was. *)
Theorem handleShare_never_throws (nav : Navigator) (invoice : Invoice)
    (w : World) :
  completion (handleShare nav invoice w) = Normal tt
  /\ world (handleShare nav invoice w) = w.
Proof.
  unfold handleShare.
  destruct (isEmpty (customerPhone invoice)); [split; reflexivity|].
  unfold try_catch.
  destruct (parseInvoiceDate (date invoice)) as [t|] eqn:Hdate.
  - destruct (share nav) as [shareFn|] eqn:Hshare.
    + rewrite (shareAttempt_native nav invoice t shareFn w Hdate Hshare).
      destruct (shareFn _) as [[]|e]; [split; reflexivity|].
      rewrite shareFailed_outcome. split; reflexivity.
    + rewrite (shareAttempt_fallback nav invoice t w Hdate Hshare).
      split; reflexivity.
  - rewrite (shareAttempt_invalid nav invoice w Hdate), shareFailed_outcome.
    split; reflexivity.
Qed.

(** X23.  A share sheet that the user closes is no failure: when
    [navigator.share] rejects with an error named [AbortError], the error
    is logged to the console and no notification is shown. *)
Theorem handleShare_cancel_silent (nav : Navigator) (invoice : Invoice)
    (t : Z) (shareFn : ShareData -> Completion unit) (e : JsError) (w : World) :
  customerPhone invoice <> ""%string ->
  parseInvoiceDate (date invoice) = ValidDate t ->
  share nav = Some shareFn ->
  shareFn (nativeShareData invoice (documentOps invoice t)) = Throw e ->
  name e = "AbortError"%string ->
  trace (handleShare nav invoice w) =
    JsPDF_new :: map JsPDF_call (documentOps invoice t) ++
    [JsPDF_output_blob (documentOps invoice t);
     Navigator_share (nativeShareData invoice (documentOps invoice t));
     Console_error "Sharing failed:" e]
  /\ toasts (trace (handleShare nav invoice w)) = [].
Proof.
  intros Hphone Hdate Hshare Hreject Hname.
  apply isEmpty_false in Hphone. unfold handleShare. rewrite Hphone.
  unfold try_catch.
  rewrite (shareAttempt_native nav invoice t shareFn w Hdate Hshare), Hreject.
  rewrite shareFailed_outcome, Hname. cbn [String.eqb Ascii.eqb Bool.eqb negb trace app].
  assert (Htrace :
    (JsPDF_new :: map JsPDF_call (documentOps invoice t) ++
     [JsPDF_output_blob (documentOps invoice t);
      Navigator_share (nativeShareData invoice (documentOps invoice t))]) ++
    [Console_error "Sharing failed:" e] =
    JsPDF_new :: map JsPDF_call (documentOps invoice t) ++
    [JsPDF_output_blob (documentOps invoice t);
     Navigator_share (nativeShareData invoice (documentOps invoice t));
     Console_error "Sharing failed:" e]).
  { cbn [app]. now rewrite <- app_assoc. }
  cbn [app] in *. rewrite Htrace. split; [reflexivity|].
  destruct (drawing_is_silent (documentOps invoice t)) as (_ & Ht & _).
  cbn [toasts]. now rewrite toasts_app, Ht.
Qed.

(** X24.  Any other rejection of [navigator.share] is reported: the error
    is logged and the notification "Sharing failed. Please try again." is
    shown, once. *)
Theorem handleShare_failure_reported (nav : Navigator) (invoice : Invoice)
    (t : Z) (shareFn : ShareData -> Completion unit) (e : JsError) (w : World) :
  customerPhone invoice <> ""%string ->
  parseInvoiceDate (date invoice) = ValidDate t ->
  share nav = Some shareFn ->
  shareFn (nativeShareData invoice (documentOps invoice t)) = Throw e ->
  name e <> "AbortError"%string ->
  toasts (trace (handleShare nav invoice w)) =
    [Toast_error "Sharing failed. Please try again."]
  /\ In (Console_error "Sharing failed:" e) (trace (handleShare nav invoice w))
  /\ shareCalls (trace (handleShare nav invoice w)) =
     [Navigator_share (nativeShareData invoice (documentOps invoice t))].
Proof.
  intros Hphone Hdate Hshare Hreject Hname.
  apply isEmpty_false in Hphone. apply String.eqb_neq in Hname.
  unfold handleShare. rewrite Hphone. unfold try_catch.
  rewrite (shareAttempt_native nav invoice t shareFn w Hdate Hshare), Hreject.
  rewrite shareFailed_outcome, Hname. cbn [negb trace].
  destruct (drawing_is_silent (documentOps invoice t)) as (_ & Ht & Hs).
  cbn [app toasts shareCalls].
  rewrite !toasts_app, !shareCalls_app, Ht, Hs.
  split; [reflexivity|]. split; [|reflexivity].
  right. rewrite <- app_assoc. apply in_or_app. right.
  cbn [app]. right. right. now left.
Qed.

(** X25.  Sharing an invoice whose date does not parse fails before
    anything is shared: [format] throws inside [generatePdf], the failure
    is reported with "Sharing failed. Please try again.", and neither
    [navigator.share] nor [window.open] is called. *)
Theorem handleShare_unparsable_date (nav : Navigator) (invoice : Invoice)
    (w : World) :
  customerPhone invoice <> ""%string ->
  parseInvoiceDate (date invoice) = InvalidDate ->
  toasts (trace (handleShare nav invoice w)) =
    [Toast_error "Sharing failed. Please try again."]
  /\ shareCalls (trace (handleShare nav invoice w)) = []
  /\ In (Console_error "Sharing failed:"
           (mkError "RangeError" "Invalid time value"))
        (trace (handleShare nav invoice w)).
Proof.
  intros Hphone Hdate. apply isEmpty_false in Hphone.
  unfold handleShare. rewrite Hphone. unfold try_catch.
  rewrite (shareAttempt_invalid nav invoice w Hdate), shareFailed_outcome.
  cbn. repeat split. auto 10.
Qed.

(** X26.  Where [navigator.share] exists and fulfils, the invoice is
    shared once, with the document attached as the file
    [Invoice_<id>.pdf] of type [application/pdf]; no link is opened and no
    notification is shown. *)
Theorem handleShare_native (nav : Navigator) (invoice : Invoice)
    (t : Z) (shareFn : ShareData -> Completion unit) (w : World) :
  customerPhone invoice <> ""%string ->
  parseInvoiceDate (date invoice) = ValidDate t ->
  share nav = Some shareFn ->
  shareFn (nativeShareData invoice (documentOps invoice t)) = Normal tt ->
  shareCalls (trace (handleShare nav invoice w)) =
    [Navigator_share (nativeShareData invoice (documentOps invoice t))]
  /\ shareFiles (nativeShareData invoice (documentOps invoice t)) =
     [mkFile (documentOps invoice t) ("Invoice_" ++ id invoice ++ ".pdf")
        "application/pdf"]
  /\ toasts (trace (handleShare nav invoice w)) = [].
Proof.
  intros Hphone Hdate Hshare Hok.
  apply isEmpty_false in Hphone.
  unfold handleShare. rewrite Hphone. unfold try_catch.
  rewrite (shareAttempt_native nav invoice t shareFn w Hdate Hshare), Hok.
  destruct (drawing_is_silent (documentOps invoice t)) as (_ & Ht & Hs).
  cbn [trace toasts shareCalls].
  rewrite !toasts_app, !shareCalls_app, Ht, Hs. repeat split.
Qed.


(** X28.  The phone of the link: [replace(/[^\d]/g, '')] leaves digits
    only, leaves a text of digits as it is, and applying it twice is
    applying it once. *)
Theorem replaceNonDigits_keeps_digits (s : string) :
  forallChars isDigit (replaceNonDigits s) = true
  /\ (forallChars isDigit s = true -> replaceNonDigits s = s)
  /\ replaceNonDigits (replaceNonDigits s) = replaceNonDigits s.
Proof.
  split; [apply replaceNonDigits_digits|].
  split; [apply replaceNonDigits_fixed|].
  apply replaceNonDigits_fixed, replaceNonDigits_digits.
Qed.

(** X29.  The text of the link: whatever the customer name, the vehicle
    and the total are, the encoded message holds only characters that
    [encodeURIComponent] keeps and percent signs, so that it cannot end or
    split the query; a text of kept characters only is not changed. *)
Theorem encodeURIComponent_url_safe (invoice : Invoice) (s : string) :
  forallChars isUrlSafe (shareMessage invoice) = true
  /\ forallChars isUrlSafe (encodeURIComponent s) = true
  /\ (forallChars isUriUnreserved s = true -> encodeURIComponent s = s).
Proof.
  split; [apply encodeURIComponent_safe|].
  split; [apply encodeURIComponent_safe | apply encodeURIComponent_unreserved].
Qed.

End FurtherProperties.

(* ================================================================== *)
(** ** The further properties at concrete inputs                       *)
(* ================================================================== *)

Section FurtherInstances.

Import SampleRuntime.

Lemma filter_inverted_range_empty_witness :
  (1706745600000 < 1709078400000)%Z /\
  filterInvoices collection ""
    (mkDateRange (Some (ValidDate 1709078400000))
                 (Some (ValidDate 1706745600000))) = [].
Proof.
  assert (H : (1706745600000 < 1709078400000)%Z) by lia.
  split; [exact H|].
  exact (filter_inverted_range_empty collection "" _ _ H).
Defined.

Lemma collection_ids_unique : NoDup (map id collection).
Proof.
  repeat constructor; simpl; intuition discriminate.
Defined.

Lemma filter_keeps_ids_unique_witness :
  NoDup (map id collection) /\
  NoDup (map id (filterInvoices collection "ka0" noRange)).
Proof.
  split; [exact collection_ids_unique|].
  exact (filter_keeps_ids_unique collection "ka0" noRange collection_ids_unique).
Defined.

Lemma loadEffect_missing_key_witness :
  localStorage_invoices worldFresh = None /\
  renderRangeLabel (dateRange worldFresh) = Normal "Search by Date Range"%string /\
  render (world (loadEffect worldFresh)) =
  Normal (mkView "Search by Date Range" "" [] true false).
Proof.
  assert (H1 : localStorage_invoices worldFresh = None) by reflexivity.
  assert (H2 : renderRangeLabel (dateRange worldFresh) =
               Normal "Search by Date Range"%string) by reflexivity.
  split; [exact H1|]. split; [exact H2|].
  exact (proj2 (proj2 (loadEffect_missing_key worldFresh _ H1 H2))).
Defined.

Lemma handleDelete_unique_removes_one_witness :
  NoDup (map id (invoices world0)) /\ In "2"%string (map id (invoices world0)) /\
  S (List.length (invoices (world (handleDelete "2" world0)))) = 3.
Proof.
  assert (H2 : In "2"%string (map id (invoices world0))) by (simpl; auto).
  split; [exact collection_ids_unique|]. split; [exact H2|].
  exact (handleDelete_unique_removes_one world0 "2" collection_ids_unique H2).
Defined.

Lemma requestThenConfirm_deletes_witness :
  "1"%string <> ""%string /\
  world (requestThenConfirm "1" world0) = world (handleDelete "1" world0).
Proof.
  assert (H : "1"%string <> ""%string) by discriminate.
  split; [exact H|].
  exact (proj1 (requestThenConfirm_deletes world0 "1" H)).
Defined.

Lemma render_after_date_filter_witness :
  dateRange worldFebruary =
    mkDateRange (Some (ValidDate 1706745600000)) (Some (ValidDate 1709078400000))
  /\ exists view,
       render (world (filterEffect worldFebruary)) = Normal view
       /\ map cardKey (cards view) =
          map id (filterInvoices (invoices worldFebruary)
                    (searchVehicle worldFebruary) (dateRange worldFebruary))
       /\ rangeLabel view =
          (formatPPP 1706745600000 ++ " - " ++ formatPPP 1709078400000)%string.
Proof.
  assert (H : dateRange worldFebruary =
              mkDateRange (Some (ValidDate 1706745600000))
                          (Some (ValidDate 1709078400000))) by reflexivity.
  split; [exact H|].
  exact (render_after_date_filter worldFebruary _ _ H).
Defined.

Lemma generatePdf_heights_increase_witness :
  completion (generatePdf invoice1 world0) =
    Normal (documentOps invoice1 1704412800000)
  /\ StronglySorted Z.lt (textHeights (documentOps invoice1 1704412800000)).
Proof.
  assert (H : completion (generatePdf invoice1 world0) =
              Normal (documentOps invoice1 1704412800000)) by reflexivity.
  split; [exact H|].
  exact (generatePdf_heights_increase invoice1 world0 _ H).
Defined.

Lemma downloadInvoice_saves_one_witness :
  parseInvoiceDate (date invoice2) = ValidDate 1707523200000 /\
  CollapsesRuns (customerName invoice2) "Vikram_N" /\
  savedFiles (trace (downloadInvoice invoice2 world0)) =
  ["Invoice_Vikram_N_2.pdf"%string].
Proof.
  assert (H : parseInvoiceDate (date invoice2) = ValidDate 1707523200000)
    by reflexivity.
  assert (Hname : CollapsesRuns (customerName invoice2) "Vikram_N")
    by exact (replaceSpaceRuns_collapses _ (customerName invoice2) (le_n _)).
  split; [exact H|]. split; [exact Hname|].
  exact (proj1 (proj2 (proj2 (downloadInvoice_saves_one invoice2 _ world0 H)
                         _ Hname))).
Defined.

Lemma downloadInvoice_unparsable_witness :
  parseInvoiceDate (date invoice3) = InvalidDate /\
  completion (downloadInvoice invoice3 world0) =
  Throw (mkError "RangeError" "Invalid time value").
Proof.
  assert (H : parseInvoiceDate (date invoice3) = InvalidDate) by reflexivity.
  split; [exact H|].
  exact (proj1 (downloadInvoice_unparsable invoice3 world0 H)).
Defined.

Lemma dated_view : Forall DateParses (filteredInvoices worldDated).
Proof.
  repeat constructor;
    [exists 1704412800000%Z | exists 1707523200000%Z]; reflexivity.
Defined.

Lemma saveAll_saves_view_witness :
  Forall DateParses (filteredInvoices worldDated) /\
  savedFiles (trace (saveAllInvoicesAsPDF worldDated)) =
  map exportFileName (filteredInvoices worldDated).
Proof.
  split; [exact dated_view|].
  exact (proj1 (proj2 (saveAll_saves_view worldDated dated_view))).
Defined.

Lemma saveAll_stops_at_unparsable_witness :
  filteredInvoices world0 = [invoice1; invoice2] ++ invoice3 :: [] /\
  Forall DateParses [invoice1; invoice2] /\
  parseInvoiceDate (date invoice3) = InvalidDate /\
  toasts (trace (saveAllInvoicesAsPDF world0)) = [].
Proof.
  assert (H1 : filteredInvoices world0 = [invoice1; invoice2] ++ invoice3 :: [])
    by reflexivity.
  assert (H3 : parseInvoiceDate (date invoice3) = InvalidDate) by reflexivity.
  split; [exact H1|]. split; [exact dated_view|]. split; [exact H3|].
  exact (proj1 (proj2 (proj2
           (saveAll_stops_at_unparsable world0 _ _ _ H1 dated_view H3)))).
Defined.

Lemma saveAll_after_date_filter_witness :
  dateRange worldFebruary =
    mkDateRange (Some (ValidDate 1706745600000)) (Some (ValidDate 1709078400000))
  /\ completion (saveAllInvoicesAsPDF (world (filterEffect worldFebruary))) =
     Normal tt.
Proof.
  assert (H : dateRange worldFebruary =
              mkDateRange (Some (ValidDate 1706745600000))
                          (Some (ValidDate 1709078400000))) by reflexivity.
  split; [exact H|].
  exact (proj1 (saveAll_after_date_filter worldFebruary _ _ H)).
Defined.

Lemma invoice1_has_phone : customerPhone invoice1 <> ""%string.
Proof. simpl. discriminate. Defined.

Lemma invoice1_dated :
  parseInvoiceDate (date invoice1) = ValidDate 1704412800000.
Proof. reflexivity. Defined.

Lemma handleShare_cancel_silent_witness :
  customerPhone invoice1 <> ""%string /\
  parseInvoiceDate (date invoice1) = ValidDate 1704412800000 /\
  toasts (trace (handleShare shareCancelled invoice1 world0)) = [].
Proof.
  split; [exact invoice1_has_phone|]. split; [exact invoice1_dated|].
  exact (proj2 (handleShare_cancel_silent shareCancelled invoice1 _ _
                  (mkError "AbortError" "Share canceled") world0
                  invoice1_has_phone invoice1_dated eq_refl eq_refl eq_refl)).
Defined.

Lemma handleShare_failure_reported_witness :
  customerPhone invoice1 <> ""%string /\
  parseInvoiceDate (date invoice1) = ValidDate 1704412800000 /\
  "NotAllowedError"%string <> "AbortError"%string /\
  toasts (trace (handleShare shareDenied invoice1 world0)) =
  [Toast_error "Sharing failed. Please try again."].
Proof.
  assert (H : name (mkError "NotAllowedError" "Permission denied")
              <> "AbortError"%string) by (simpl; discriminate).
  split; [exact invoice1_has_phone|]. split; [exact invoice1_dated|].
  split; [exact H|].
  exact (proj1 (handleShare_failure_reported shareDenied invoice1 _ _
                  (mkError "NotAllowedError" "Permission denied") world0
                  invoice1_has_phone invoice1_dated eq_refl eq_refl H)).
Defined.

Lemma handleShare_unparsable_date_witness :
  customerPhone invoice3 <> ""%string /\
  parseInvoiceDate (date invoice3) = InvalidDate /\
  shareCalls (trace (handleShare shareFulfilled invoice3 world0)) = [].
Proof.
  assert (H1 : customerPhone invoice3 <> ""%string) by (simpl; discriminate).
  assert (H2 : parseInvoiceDate (date invoice3) = InvalidDate) by reflexivity.
  split; [exact H1|]. split; [exact H2|].
  exact (proj1 (proj2 (handleShare_unparsable_date shareFulfilled invoice3
                         world0 H1 H2))).
Defined.

Lemma handleShare_native_witness :
  customerPhone invoice1 <> ""%string /\
  parseInvoiceDate (date invoice1) = ValidDate 1704412800000 /\
  shareCalls (trace (handleShare shareFulfilled invoice1 world0)) =
  [Navigator_share (nativeShareData invoice1 (documentOps invoice1 1704412800000))].
Proof.
  split; [exact invoice1_has_phone|]. split; [exact invoice1_dated|].
  exact (proj1 (handleShare_native shareFulfilled invoice1 _ _ world0
                  invoice1_has_phone invoice1_dated eq_refl eq_refl)).
Defined.


(** The link of the first invoice of the scenario. *)
Example fallback_link_example :
  shareCalls (trace (handleShare noShare invoice1 world0)) =
  [Window_open
     "https://wa.me/919845012345?text=Hi%20Asha%20Rao%2C%20here's%20your%20invoice%20for%20Swift%20(KA01AB1234).%0ATotal%3A%20%E2%82%B9500%0ADownload%20PDF%3A"
     "_blank"].
Proof. reflexivity. Qed.

(** The view of the scenario cannot be rendered while the invoice dated
    "someday" is in it, and can once a date range is in force. *)
Example render_scenario :
  render world0 = Throw (mkError "RangeError" "Invalid time value")
  /\ exists view, render (world (filterEffect worldFebruary)) = Normal view
                  /\ map cardKey (cards view) = ["2"%string].
Proof. split; [reflexivity | eexists; split; reflexivity]. Qed.

Example export_names :
  savedFiles (trace (saveAllInvoicesAsPDF worldDated)) =
  ["Invoice_Asha_Rao_1.pdf"; "Invoice_Vikram_N_2.pdf"]%string.
Proof. reflexivity. Qed.

(** White space beyond ASCII: a search text behind a no-break space
    (U+00A0) finds the same invoice, a text of an ideographic space
    (U+3000) alone is blank, and a no-break space in a customer name
    becomes an underscore of the file name. *)
Example search_behind_no_break_space :
  map id (filterInvoices collection (utf8 [194; 160] ++ "ka01") noRange) =
  ["1"%string]
  /\ trim (utf8 [194; 160] ++ "ka01" ++ utf8 [226; 128; 137]) = "ka01"%string
  /\ trim (utf8 [227; 128; 128]) = ""%string
  /\ filterInvoices collection (utf8 [227; 128; 128]) noRange = collection.
Proof. repeat split. Qed.

Example export_name_no_break_space :
  exportFileName
    (mkInvoice "7" "2024-03-15" ("Asha" ++ utf8 [194; 160] ++ "Rao") "1"
       "Alto" "TN09" [] 0%Z) =
  "Invoice_Asha_Rao_7.pdf"%string
  /\ replaceSpaceRuns false ("A " ++ utf8 [226; 128; 168] ++ "	B") = "A_B"%string.
Proof. split; reflexivity. Qed.

End FurtherInstances.
